(** * RedPanda: the pandas/SQLAlchemy adapter of [redpanda/orm.py]

    A shallow embedding of the class [RedPanda] (constructor, [frame],
    [parse]) together with the part of the tabular library that the two
    methods touch, followed by the properties of the two methods.

    Python objects are modelled as follows.
    - keyword options ([**read_sql]) and keyword arguments ([**row.to_dict()])
      are finite maps from strings to Python values;
    - the receiver [self] is a record of four attributes held in the program
      state, so that an assignment to an attribute would be visible;
    - calls that leave [orm.py] (dialect resolver, [pandas.read_sql],
      [DataFrame.__getitem__], the transformations, the entity constructor)
      are recorded in a trace, together with the exception they raised, if
      any;
    - a raised exception is the [Raise] result of the error monad; the state
      reached when it was raised is kept;
    - [reduce] is the built-in of Python 2, the language of the module. *)

From stdpp Require Import gmap strings list.

Set Warnings "-register-all".

Open Scope string_scope.
Open Scope list_scope.
Open Scope nat_scope.

(** ** Python values and exceptions *)

Inductive pyval :=
| PNone
| PBool (b : bool)
| PInt (z : Z)
| PStr (s : string)
| PList (l : list pyval)
| PDict (d : list (string * pyval)).

(** [v is not None] *)
Definition is_not_None (v : pyval) : bool :=
  match v with PNone => false | _ => true end.

(** [d.get(k)]: the value under [k], or [None] when the key is absent. *)
Definition dict_get (d : gmap string pyval) (k : string) : pyval :=
  default PNone (d !! k).

Inductive exn :=
| KeyError (labels : list string)
| Exception (cls msg : string).

Inductive Res (A : Type) :=
| Ok (a : A)
| Raise (e : exn).
Arguments Ok {A} a.
Arguments Raise {A} e.

Definition raised {A} (r : Res A) : option exn :=
  match r with Ok _ => None | Raise e => Some e end.

Definition res_bind {A B} (r : Res A) (k : A → Res B) : Res B :=
  match r with Ok a => k a | Raise e => Raise e end.

(** [d[k]] *)
Definition dict_getitem (d : gmap string pyval) (k : string) : Res pyval :=
  match d !! k with Some v => Ok v | None => Raise (KeyError [k]) end.

(** ** The tabular library: [DataFrame], [Series]

    A table is a row index and an ordered collection of labelled columns,
    each an ordered sequence of cells.  Cells are opaque Python values
    (dtypes are not modelled). *)

Record DataFrame := mkDataFrame {
  index : list pyval;
  data : list (string * list pyval)
}.

(** [df.columns] *)
Definition columns (df : DataFrame) : list string := (data df).*1.

(** Every column has one cell per index label. *)
Definition well_formed (df : DataFrame) : Prop :=
  Forall (λ col, length col.2 = length (index df)) (data df).

(** A row as handed out by [iterrows]: the column labels with the cells of
    that row. *)
Definition Series : Type := list (string * pyval).

(** [Series.to_dict()]: [dict(zip(labels, cells))], a later duplicate label
    overwriting an earlier one. *)
Definition to_dict (row : Series) : gmap string pyval :=
  foldl (λ d kv, <[kv.1 := kv.2]> d) ∅ row.

(** Row number [i] of the columns [d]: each label with the cell its column
    holds at position [i]. *)
Definition row_at (d : list (string * list pyval)) (i : nat) : Series :=
  omap (λ col, (λ v, (col.1, v)) <$> col.2 !! i) d.

(** [DataFrame.iterrows()]: the pairs (index label, row), in row order. *)
Definition iterrows (df : DataFrame) : list (pyval * Series) :=
  imap (λ i ix, (ix, row_at (data df) i)) (index df).

(** How many columns carry the label [c]. *)
Definition occurrences (c : string) (df : DataFrame) : nat :=
  length (filter (λ col, col.1 = c) (data df)).

(** [df[key]] for a list of labels: label-based selection.  Every column
    whose label is [c] is selected for each requested [c], in request order,
    and the index is kept; labels that no column carries raise [KeyError]. *)
Definition getitem_labels (df : DataFrame) (key : list string) : Res DataFrame :=
  match filter (λ c, c ∉ columns df) key with
  | [] => Ok {| index := index df;
                data := key ≫= (λ c, filter (λ col, col.1 = c) (data df)) |}
  | m => Raise (KeyError m)
  end.

(** A key that is a list of strings. *)
Definition as_label (v : pyval) : option string :=
  match v with PStr s => Some s | _ => None end.
Definition as_labels (v : pyval) : option (list string) :=
  match v with PList l => mapM as_label l | _ => None end.

(** ** The adapter and its collaborators *)

(** SQLAlchemy engines, queries, rendered statements and mapped objects, the
    state of everything outside the adapter (the database, the connection
    pool), and the functions the adapter calls but does not define. *)
Class Collaborators := {
  Engine : Type;
  Query : Type;
  Statement : Type;
  Entity : Type;
  Ext : Type;
  (** [dialects.statement_and_params(engine, query)] *)
  resolver : Engine → Query → Ext → Res (Statement * pyval) * Ext;
  (** [str(sql)] *)
  str : Statement → string;
  (** [pandas.read_sql(sql, con, **kwargs)] *)
  loader : string → Engine → gmap string pyval → Ext → Res DataFrame * Ext;
  (** [DataFrame.__getitem__] for keys other than a list of labels
      (a scalar label, a boolean mask, ...): left to the tabular library. *)
  getitem_other : DataFrame → pyval → Res DataFrame
}.

(** A transformation passed to [frame]: a function on tables that computes
    without touching the adapter or the outside state, and may raise. *)
Definition Transformation : Type := DataFrame → Res DataFrame.

Section RedPanda.
Context `{Collaborators}.

(** The object built by [RedPanda.__init__]: [ormcls] is the callable that
    constructs a mapped object from keyword arguments; like the
    transformations, it computes without touching the outside state, and may
    raise. *)
Record RedPanda := mkRedPanda {
  ormcls : gmap string pyval → Res Entity;
  engine : Engine;
  query : Query;
  read_sql : gmap string pyval
}.

(** [RedPanda(ormcls, engine, query, **read_sql)] *)
Definition init (ormcls : gmap string pyval → Res Entity)
    (engine : Engine) (query : Query) (read_sql : gmap string pyval) : RedPanda :=
  {| ormcls := ormcls; engine := engine; query := query; read_sql := read_sql |}.

Inductive Call :=
| resolver_call (e : Engine) (q : Query)
| loader_call (sql : string) (con : Engine) (kwargs : gmap string pyval)
| getitem_call (df : DataFrame) (key : pyval)
| transformation_call (y : Transformation) (x : DataFrame)
| ormcls_call (kwargs : gmap string pyval).

Record Event := mkEvent { call : Call; outcome : option exn }.

Record World := mkWorld {
  self : RedPanda;
  ext : Ext;
  trace : list Event
}.

(** ** State and error monad *)

Definition M (A : Type) : Type := World → Res A * World.

#[local] Instance M_ret : MRet M := λ A a w, (Ok a, w).
#[local] Instance M_bind : MBind M := λ A B k m w,
  match m w with
  | (Ok a, w') => k a w'
  | (Raise e, w') => (Raise e, w')
  end.

(** [self.f] *)
Definition getattr {A} (f : RedPanda → A) : M A := λ w, (Ok (f (self w)), w).

(** A call leaving the adapter: it acts on the outside state only and is
    appended to the trace with its outcome. *)
Definition extern {A} (c : Call) (f : Ext → Res A * Ext) : M A := λ w,
  let '(r, x) := f (ext w) in
  (r, {| self := self w; ext := x; trace := trace w ++ [mkEvent c (raised r)] |}).

Definition lift {A} (r : Res A) : M A := λ w, (r, w).

Definition statement_and_params (e : Engine) (q : Query) : M (Statement * pyval) :=
  extern (resolver_call e q) (resolver e q).

Definition pandas_read_sql (sql : string) (con : Engine) (kwargs : gmap string pyval)
    : M DataFrame :=
  extern (loader_call sql con kwargs) (loader sql con kwargs).

(** [df[key]] *)
Definition getitem_pure (df : DataFrame) (key : pyval) : Res DataFrame :=
  match as_labels key with
  | Some ls => getitem_labels df ls
  | None => getitem_other df key
  end.
Definition getitem (df : DataFrame) (key : pyval) : M DataFrame :=
  extern (getitem_call df key) (λ x, (getitem_pure df key, x)).

(** [y(x)] for a transformation [y] *)
Definition apply (x : DataFrame) (y : Transformation) : M DataFrame :=
  extern (transformation_call y x) (λ s, (y x, s)).

(** [cls( **kwargs )] *)
Definition construct (cls : gmap string pyval → Res Entity)
    (kwargs : gmap string pyval) : M Entity :=
  extern (ormcls_call kwargs) (λ x, (cls kwargs, x)).

(** Python's [reduce(f, seq, init)] *)
Fixpoint reduce {A B} (f : A → B → M A) (seq : list B) (init : A) : M A :=
  match seq with
  | [] => mret init
  | y :: seq' => x ← f init y; reduce f seq' x
  end.

(** Modelled from the spec: [utils.dictcombine], which is not among the
    sources.  The spec describes it as a merge of two option mappings that is
    right-biased: when both define a key, the second mapping wins.  It
    returns a new mapping. *)
Definition dictcombine (a b : gmap string pyval) : gmap string pyval := b ∪ a.

(** ** [RedPanda.frame] *)

Definition frame (transformations : list Transformation) : M DataFrame :=
  (* sql, params = dialects.statement_and_params(self.engine, self.query) *)
  e ← getattr engine;
  q ← getattr query;
  sp ← statement_and_params e q;
  let '(sql, params) := sp in
  (* read_sql = utils.dictcombine(self.read_sql, {'params' : params}) *)
  stored ← getattr read_sql;
  let read_sql' := dictcombine stored {[ "params" := params ]} in
  (* dataframe = pandas.read_sql(str(sql), self.engine, **read_sql) *)
  con ← getattr engine;
  dataframe ← pandas_read_sql (str sql) con read_sql';
  (* if self.read_sql.get('columns') is not None:
         dataframe = dataframe[self.read_sql['columns']] *)
  stored ← getattr read_sql;
  dataframe ← (if is_not_None (dict_get stored "columns")
               then stored ← getattr read_sql;
                    key ← lift (dict_getitem stored "columns");
                    getitem dataframe key
               else mret dataframe);
  (* return reduce((lambda x, y: y(x)), transformations, dataframe) *)
  reduce apply transformations dataframe.

(** ** [RedPanda.parse]

    [parse] is a generator function: the call returns a generator whose body
    has not started.  Each [next] runs the body up to the following [yield];
    a generator whose body raised or returned is finished. *)

Inductive Generator :=
| GenCreated (dataframe : DataFrame)
| GenSuspended (it : list (pyval * Series))
| GenFinished.

Inductive Step :=
| Yield (obj : Entity)
| StopIteration
| Raised (e : exn).

Definition parse (dataframe : DataFrame) : Generator := GenCreated dataframe.

(** The loop [for ix, row in it: yield self.ormcls( **row.to_dict() )], run up
    to the next [yield]. *)
Definition resume (it : list (pyval * Series)) (w : World) : Step * Generator * World :=
  match it with
  | [] => (StopIteration, GenFinished, w)
  | (ix, row) :: it' =>
      match (cls ← getattr ormcls; construct cls (to_dict row)) w with
      | (Ok obj, w') => (Yield obj, GenSuspended it', w')
      | (Raise e, w') => (Raised e, GenFinished, w')
      end
  end.

(** [next(g)] *)
Definition next (g : Generator) (w : World) : Step * Generator * World :=
  match g with
  | GenCreated dataframe => resume (iterrows dataframe) w
  | GenSuspended it => resume it w
  | GenFinished => (StopIteration, GenFinished, w)
  end.

(** How a consumer that asked for [n] elements stopped: it received all
    [n], or the generator was exhausted first, or an error reached it. *)
Inductive Ending :=
| Received
| Exhausted
| Failed (e : exn).

(** A consumer that calls [next] up to [n] times: the objects it received, how
    it stopped, and the generator and state it left behind. *)
Fixpoint consume (n : nat) (g : Generator) (w : World)
    : list Entity * Ending * Generator * World :=
  match n with
  | 0 => ([], Received, g, w)
  | S n' =>
      match next g w with
      | (Yield obj, g', w') =>
          let '(objs, stop, g'', w'') := consume n' g' w' in (obj :: objs, stop, g'', w'')
      | (StopIteration, g', w') => ([], Exhausted, g', w')
      | (Raised e, g', w') => ([], Failed e, g', w')
      end
  end.

(** ** Auxiliary notions used in the statements *)

(** The transformation chain as a pure computation: [y_n(... y_1(x))],
    stopping at the first transformation that raises. *)
Definition chain (ts : list Transformation) (x : DataFrame) : Res DataFrame :=
  foldl res_bind (Ok x) ts.

(** The calls made by the chain, in order. *)
Fixpoint chain_events (ts : list Transformation) (x : DataFrame) : list Event :=
  match ts with
  | [] => []
  | y :: ts' =>
      mkEvent (transformation_call y x) (raised (y x)) ::
      match y x with Ok x' => chain_events ts' x' | Raise _ => [] end
  end.

Definition is_resolver_call (ev : Event) : bool :=
  match call ev with resolver_call _ _ => true | _ => false end.
Definition is_loader_call (ev : Event) : bool :=
  match call ev with loader_call _ _ _ => true | _ => false end.
Definition is_getitem_call (ev : Event) : bool :=
  match call ev with getitem_call _ _ => true | _ => false end.

Definition count (p : Event → bool) (evs : list Event) : nat :=
  length (List.filter p evs).

(** The events appended to the trace of [w] on the way to [w']. *)
Definition new_events (w w' : World) : list Event :=
  drop (length (trace w)) (trace w').

(** The constructor call that [parse] makes for a row. *)
Definition construct_event (cls : gmap string pyval → Res Entity) (row : Series) : Event :=
  mkEvent (ormcls_call (to_dict row)) (raised (cls (to_dict row))).

(** The column mask of [frame] as a function of the stored options and the
    loaded table. *)
Definition mask (stored : gmap string pyval) (df : DataFrame) : Res DataFrame :=
  match stored !! "columns" with
  | Some key => if is_not_None key then getitem_pure df key else Ok df
  | None => Ok df
  end.

(** States reached from [w] by calling [frame] and advancing generators of
    [parse], any number of times, in any order. *)
Inductive calls (w : World) : World → Prop :=
| calls_none : calls w w
| calls_frame w' ts : calls w w' → calls w (frame ts w').2
| calls_next w' g : calls w w' → calls w (next g w').2.

End RedPanda.

(** ** A concrete setting

    Engines, queries and statements are strings, a mapped object is the
    mapping of its attributes, and the outside state counts the statements
    executed so far.  The loader answers from that state, so that two
    executions of one statement can be told apart. *)

Definition demo_resolver (e q : string) (x : nat) : Res (string * pyval) * nat :=
  if decide (q = "") then (Raise (Exception "ArgumentError" "empty query"), x)
  else (Ok (q, PDict [("p", PInt 2)]), x).

Definition demo_loader (sql e : string) (kwargs : gmap string pyval) (x : nat)
    : Res DataFrame * nat :=
  if decide (sql = "SELECT 1/0") then
    (Raise (Exception "OperationalError" "division by zero"), S x)
  else if decide (sql = "SELECT u.id, v.id, name") then
    (Ok (mkDataFrame [PInt 0]
           [("id", [PInt 1]); ("id", [PInt 7]); ("name", [PStr "x"])]), S x)
  else
    (Ok (mkDataFrame [PInt 0; PInt 1]
           [("a", [PInt 1; PInt 2]);
            ("b", [PInt (Z.of_nat x); PInt (Z.of_nat x)]);
            ("c", [dict_get kwargs "params"; dict_get kwargs "params"])]), S x).

#[export] Instance demo : Collaborators := {|
  Engine := string;
  Query := string;
  Statement := string;
  Entity := gmap string pyval;
  Ext := nat;
  resolver := demo_resolver;
  str := id;
  loader := demo_loader;
  getitem_other := λ _ _, Raise (Exception "TypeError" "unsupported key")
|}.

(** A mapped class with the attributes [id] and [name]. *)
Definition User (kwargs : gmap string pyval) : Res (gmap string pyval) :=
  if decide (dom kwargs = ({[ "id"; "name" ]} : gset string)) then Ok kwargs
  else Raise (Exception "TypeError" "invalid keyword argument").

Definition demo_world (q : string) (options : gmap string pyval) : World :=
  mkWorld (init User "sqlite://" q options) 0 [].

Definition users : DataFrame :=
  mkDataFrame [PInt 10; PInt 11]
    [("id", [PInt 1; PInt 2]); ("name", [PStr "x"; PStr "y"])].

(** A mapped class whose [id] must be an integer. *)
Definition Account (kwargs : gmap string pyval) : Res (gmap string pyval) :=
  match kwargs !! "id" with
  | Some (PInt _) => Ok kwargs
  | _ => Raise (Exception "ValueError" "id must be an integer")
  end.

Definition accounts : DataFrame :=
  mkDataFrame [PInt 0; PInt 1; PInt 2]
    [("id", [PInt 1; PNone; PInt 3]); ("owner", [PStr "x"; PStr "y"; PStr "z"])].

(** Transformations: [df.head(1)], [df.add_prefix(p)], and one that raises. *)
Definition head1 : Transformation := λ df,
  Ok (mkDataFrame (firstn 1 (index df)) ((λ col, (col.1, firstn 1 col.2)) <$> data df)).
Definition add_prefix (p : string) : Transformation := λ df,
  Ok (mkDataFrame (index df) ((λ col, (p +:+ col.1, col.2)) <$> data df)).
Definition failing : Transformation := λ _,
  Raise (Exception "ValueError" "unexpected frame").

(** The stored options of the merge example, a table without rows, and the
    table [users] under other index labels. *)
Definition stored_example : gmap string pyval :=
  {[ "params" := PDict [("p", PInt 1)]; "index_col" := PStr "id" ]}.

Definition no_users : DataFrame := mkDataFrame [] [("id", []); ("name", [])].

Definition users_relabelled : DataFrame :=
  mkDataFrame [PStr "u"; PStr "v"] (data users).

Definition account_world : World :=
  mkWorld (init Account "sqlite://" "SELECT a" ∅) 0 [].

Section Calls.
Context `{Collaborators}.

(** The call that the column mask of [frame] makes on the loaded table, if
    any. *)
Definition selection_events (stored : gmap string pyval) (df : DataFrame) : list Event :=
  match stored !! "columns" with
  | Some key =>
      if is_not_None key
      then [mkEvent (getitem_call df key) (raised (getitem_pure df key))]
      else []
  | None => []
  end.

Definition is_ormcls_call (ev : Event) : bool :=
  match call ev with ormcls_call _ => true | _ => false end.

(** The constructor calls a consumer has caused: one per object received,
    and one more when it was stopped by an error. *)
Definition constructor_calls (objs : list Entity) (stop : Ending) : nat :=
  length objs + match stop with Failed _ => 1 | _ => 0 end.

End Calls.

(** A table with two columns labelled [id], and a class accepting any
    keywords. *)
Definition joined : DataFrame :=
  mkDataFrame [PInt 0; PInt 1]
    [("id", [PInt 1; PInt 2]); ("name", [PStr "x"; PStr "y"]);
     ("id", [PInt 7; PInt 8])].

Definition Anything (kwargs : gmap string pyval) : Res (gmap string pyval) :=
  Ok kwargs.

Definition anything_world : World :=
  mkWorld (init Anything "sqlite://" "SELECT a" ∅) 0 [].

Section Properties.
Context `{Collaborators}.

(** ** Basic facts *)

Lemma chain_nil x : chain [] x = Ok x.
Proof. reflexivity. Qed.

Lemma foldl_res_bind_raise (ts : list Transformation) e :
  foldl res_bind (Raise e) ts = Raise e.
Proof. induction ts as [|y ts IH]; [done|]. exact IH. Qed.

Lemma chain_cons y ts x : chain (y :: ts) x = res_bind (y x) (chain ts).
Proof.
  unfold chain. cbn. destruct (y x) as [x'|e]; cbn; [done|].
  apply foldl_res_bind_raise.
Qed.

Lemma chain_app ts1 ts2 x : chain (ts1 ++ ts2) x = res_bind (chain ts1 x) (chain ts2).
Proof.
  unfold chain. rewrite foldl_app.
  destruct (foldl res_bind (Ok x) ts1); cbn; [done|].
  apply foldl_res_bind_raise.
Qed.

Lemma world_eta w : mkWorld (self w) (ext w) (trace w) = w.
Proof. by destruct w. Qed.

Lemma reduce_apply ts x w :
  reduce apply ts x w
  = (chain ts x, mkWorld (self w) (ext w) (trace w ++ chain_events ts x)).
Proof.
  revert x w. induction ts as [|y ts IH]; intros x w.
  - cbn. by rewrite app_nil_r, world_eta.
  - rewrite chain_cons. cbn. unfold mbind, M_bind, apply at 1. unfold extern.
    destruct (y x) as [x'|e]; cbn.
    + rewrite IH. cbn. by rewrite <- app_assoc.
    + done.
Qed.

(** [frame], run: one case per place where the method can stop. *)
Lemma frame_unfold ts w :
  frame ts w =
  let s := self w in
  let ev1 := mkEvent (resolver_call (engine s) (query s)) in
  match resolver (engine s) (query s) (ext w) with
  | (Raise e, x1) => (Raise e, mkWorld s x1 (trace w ++ [ev1 (Some e)]))
  | (Ok (sql, params), x1) =>
      let kw := dictcombine (read_sql s) {[ "params" := params ]} in
      let ev2 := mkEvent (loader_call (str sql) (engine s) kw) in
      match loader (str sql) (engine s) kw x1 with
      | (Raise e, x2) =>
          (Raise e, mkWorld s x2 (trace w ++ [ev1 None; ev2 (Some e)]))
      | (Ok df, x2) =>
          let skip :=
            (chain ts df,
             mkWorld s x2 (trace w ++ [ev1 None; ev2 None] ++ chain_events ts df)) in
          match read_sql s !! "columns" with
          | Some key =>
              if is_not_None key then
                let ev3 := mkEvent (getitem_call df key) in
                match getitem_pure df key with
                | Ok df' =>
                    (chain ts df',
                     mkWorld s x2 (trace w ++ [ev1 None; ev2 None; ev3 None]
                                           ++ chain_events ts df'))
                | Raise e =>
                    (Raise e,
                     mkWorld s x2 (trace w ++ [ev1 None; ev2 None; ev3 (Some e)]))
                end
              else skip
          | None => skip
          end
      end
  end.
Proof.
  unfold frame, mbind, M_bind, getattr, statement_and_params, pandas_read_sql,
    lift, extern. cbn.
  destruct (resolver _ _ _) as [[[sql params]|e] x1]; cbn; [|done].
  destruct (loader _ _ _ _) as [[df|e] x2]; cbn; [|by rewrite <- app_assoc].
  unfold dict_get, dict_getitem.
  destruct (read_sql (self w) !! "columns") as [key|] eqn:Hkey; cbn.
  - destruct (is_not_None key); cbn.
    + unfold getitem, extern. cbn. rewrite Hkey. cbn.
      destruct (getitem_pure df key) as [df'|e]; cbn.
      * rewrite reduce_apply. cbn. by rewrite <- !app_assoc.
      * by rewrite <- !app_assoc.
    + rewrite reduce_apply. cbn. by rewrite <- !app_assoc.
  - rewrite reduce_apply. cbn. by rewrite <- !app_assoc.
Qed.

(** *** Traces *)

Lemma new_events_app w w' evs : trace w' = trace w ++ evs → new_events w w' = evs.
Proof. intros Hw'. unfold new_events. by rewrite Hw', drop_app_length. Qed.

Lemma count_app p evs1 evs2 : count p (evs1 ++ evs2) = count p evs1 + count p evs2.
Proof. unfold count. by rewrite List.filter_app, length_app. Qed.

Lemma chain_events_only_transformations ts x :
  Forall (λ ev, ∃ y x', call ev = transformation_call y x') (chain_events ts x).
Proof.
  revert x. induction ts as [|y ts IH]; intros x; cbn; [constructor|].
  constructor; [by eexists _, _|]. destruct (y x); [apply IH|constructor].
Qed.

Lemma filter_chain_events p ts x :
  (∀ y x', p (mkEvent (transformation_call y x') None) = false) →
  (∀ ev, p ev = p (mkEvent (call ev) None)) →
  List.filter p (chain_events ts x) = [].
Proof.
  intros Hp Hcall. induction (chain_events_only_transformations ts x)
    as [|ev evs (y & x' & Hev) _ IH]; [done|].
  cbn. rewrite Hcall, Hev, Hp. exact IH.
Qed.

Lemma filter_chain_events_resolver ts x :
  List.filter is_resolver_call (chain_events ts x) = [].
Proof. by apply filter_chain_events. Qed.
Lemma filter_chain_events_loader ts x :
  List.filter is_loader_call (chain_events ts x) = [].
Proof. by apply filter_chain_events. Qed.
Lemma filter_chain_events_getitem ts x :
  List.filter is_getitem_call (chain_events ts x) = [].
Proof. by apply filter_chain_events. Qed.

Lemma chain_events_app ts1 ts2 x x' :
  chain ts1 x = Ok x' →
  chain_events (ts1 ++ ts2) x = chain_events ts1 x ++ chain_events ts2 x'.
Proof.
  revert x. induction ts1 as [|y ts1 IH]; intros x.
  - rewrite chain_nil. by intros [= ->].
  - rewrite chain_cons. cbn. destruct (y x) as [x1|e]; cbn; [|done].
    intros Hx1. by rewrite (IH _ Hx1).
Qed.

(** Case analysis on a run of [frame]: the selection returned, the selection
    raised, ['columns'] is [None], ['columns'] is absent, the loader raised,
    the resolver raised. *)
Ltac frame_cases :=
  rewrite ?frame_unfold; cbv zeta;
  destruct (resolver _ _ _) as [[[sql params]|e] x1] eqn:Hres;
  [destruct (loader _ _ _ _) as [[df|e] x2] eqn:Hload;
   [destruct (read_sql (self _) !! "columns") as [key|] eqn:Hkey;
    [destruct (is_not_None key) eqn:Hnone;
     [destruct (getitem_pure df key) as [df'|e] eqn:Hget|]|]|]|].

(** [frame] extends the trace. *)
Lemma frame_trace ts w : trace (frame ts w).2 = trace w ++ new_events w (frame ts w).2.
Proof.
  assert (∃ evs, trace (frame ts w).2 = trace w ++ evs) as [evs Hevs]
    by (frame_cases; by eexists).
  by rewrite (new_events_app _ _ _ Hevs).
Qed.

(** The result of [frame] in terms of [mask] and [chain]. *)
Lemma frame_result ts w sql params x1 df x2 :
  resolver (engine (self w)) (query (self w)) (ext w) = (Ok (sql, params), x1) →
  loader (str sql) (engine (self w))
    (dictcombine (read_sql (self w)) {[ "params" := params ]}) x1 = (Ok df, x2) →
  (frame ts w).1 = res_bind (mask (read_sql (self w)) df) (chain ts)
  ∧ ext (frame ts w).2 = x2.
Proof.
  intros Hres Hload. rewrite frame_unfold. cbv zeta. rewrite Hres, Hload.
  unfold mask. destruct (read_sql (self w) !! "columns") as [key|]; [|done].
  destruct (is_not_None key); [|done].
  by destruct (getitem_pure df key).
Qed.

(** *** The merge utility (as modelled) *)

Lemma dictcombine_lookup a b k :
  dictcombine a b !! k = match b !! k with Some v => Some v | None => a !! k end.
Proof.
  unfold dictcombine. rewrite lookup_union. by destruct (b !! k), (a !! k).
Qed.

Lemma dictcombine_params stored params :
  dictcombine stored {[ "params" := params ]} !! "params" = Some params.
Proof. by rewrite dictcombine_lookup, lookup_singleton_eq. Qed.

Lemma dictcombine_other stored params k :
  k ≠ "params" → dictcombine stored {[ "params" := params ]} !! k = stored !! k.
Proof. intros Hk. by rewrite dictcombine_lookup, lookup_singleton_ne. Qed.

(** ** Properties of [frame] *)

(** C1.  When the resolver returns [(sql, params)], [frame] calls the loader
    exactly once, with the options [dictcombine stored {'params': params}]:
    under the right-biased merge these map ['params'] to the resolved
    parameters, whatever the stored options held there, and agree with the
    stored options on every other key. *)
Theorem frame_loader_options ts w sql params x1 :
  resolver (engine (self w)) (query (self w)) (ext w) = (Ok (sql, params), x1) →
  ∃ kw r,
    List.filter is_loader_call (new_events w (frame ts w).2)
      = [mkEvent (loader_call (str sql) (engine (self w)) kw) r]
    ∧ kw = dictcombine (read_sql (self w)) {[ "params" := params ]}
    ∧ kw !! "params" = Some params
    ∧ ∀ k, k ≠ "params" → kw !! k = read_sql (self w) !! k.
Proof.
  intros Hres.
  exists (dictcombine (read_sql (self w)) {[ "params" := params ]}).
  cut (∃ r, List.filter is_loader_call (new_events w (frame ts w).2)
        = [mkEvent (loader_call (str sql) (engine (self w))
             (dictcombine (read_sql (self w)) {[ "params" := params ]})) r]).
  { intros [r Hr]. exists r. split; [done|]. split; [done|].
    split; [apply dictcombine_params|]. intros k. apply dictcombine_other. }
  rewrite frame_unfold. cbv zeta. rewrite Hres.
  destruct (loader _ _ _ _) as [[df|e] x2].
  - destruct (read_sql (self w) !! "columns") as [key|];
      [destruct (is_not_None key); [destruct (getitem_pure df key)|]|];
      (erewrite new_events_app by reflexivity); cbn;
      rewrite ?List.filter_app, ?filter_chain_events_loader; by eexists.
  - erewrite new_events_app by reflexivity. by eexists.
Qed.

Lemma is_not_None_true key : is_not_None key = true ↔ key ≠ PNone.
Proof. by destruct key. Qed.

Lemma res_bind_chain (r : Res DataFrame) ts : res_bind r (chain ts) = foldl res_bind r ts.
Proof. destruct r as [x|e]; cbn; [done|]. by rewrite foldl_res_bind_raise. Qed.

(** [frame ts] is [frame []] followed by the chain. *)
Lemma frame_after_frame_nil ts w :
  (frame ts w).1 = res_bind (frame [] w).1 (chain ts)
  ∧ ext (frame ts w).2 = ext (frame [] w).2
  ∧ ∀ x, (frame [] w).1 = Ok x →
      trace (frame ts w).2 = trace (frame [] w).2 ++ chain_events ts x.
Proof.
  frame_cases; cbn; try done; (split; [done|]); (split; [done|]);
    intros x [= ->]; by rewrite ?app_nil_r, <- ?app_assoc.
Qed.

(** C3.  [frame(t1, t2)] returns what [frame()] returns, passed through [t1]
    and then [t2]; more generally the transformations are folded left to
    right over the result of [frame()], each output being the next input.
    The outside state is left as [frame()] leaves it. *)
Theorem frame_transformations_compose t1 t2 w :
  (frame [t1; t2] w).1 = res_bind (res_bind (frame [] w).1 t1) t2
  ∧ ext (frame [t1; t2] w).2 = ext (frame [] w).2
  ∧ (∀ ts, (frame ts w).1 = foldl res_bind (frame [] w).1 ts)
  ∧ (∀ (f1 f2 : DataFrame → DataFrame) r,
       (frame [] w).1 = Ok r →
       (frame [λ x, Ok (f1 x); λ x, Ok (f2 x)] w).1 = Ok (f2 (f1 r))).
Proof.
  assert (∀ ts, (frame ts w).1 = foldl res_bind (frame [] w).1 ts) as Hfold.
  { intros ts. rewrite <- res_bind_chain. apply frame_after_frame_nil. }
  split; [apply Hfold|]. split; [apply frame_after_frame_nil|].
  split; [exact Hfold|]. intros f1 f2 r Hr. by rewrite Hfold, Hr.
Qed.

Lemma frame_self ts w : self (frame ts w).2 = self w.
Proof. by frame_cases. Qed.

Lemma resume_self it w : self (resume it w).2 = self w.
Proof.
  destruct it as [|[ix row] it]; [done|].
  unfold resume, mbind, M_bind, getattr, construct, extern. cbn.
  by destruct (ormcls (self w) (to_dict row)).
Qed.

Lemma next_self g w : self (next g w).2 = self w.
Proof. destruct g; cbn; [apply resume_self..|done]. Qed.

(** C5.  Whatever sequence of [frame] calls and generator steps of [parse]
    is run, the adapter is afterwards what it was before: the same mapped
    class, engine, query and options. *)
Theorem adapter_never_mutated w w' :
  calls w w' →
  self w' = self w
  ∧ ormcls (self w') = ormcls (self w)
  ∧ engine (self w') = engine (self w)
  ∧ query (self w') = query (self w)
  ∧ read_sql (self w') = read_sql (self w).
Proof.
  intros Hcalls. cut (self w' = self w); [by intros ->|].
  induction Hcalls as [|w' ts _ IH|w' g _ IH]; [done|..].
  - by rewrite frame_self.
  - by rewrite next_self.
Qed.

(** C6.  An error raised by the resolver, by the loader, by the column
    selection or by a transformation is what [frame] raises; the call that
    raised is the last one made (nothing is retried, nothing is called in
    its place, later transformations are not run), and [frame] raises no
    error but these. *)
Theorem frame_error_transparent ts w :
  let s := self w in
  let ev1 := mkEvent (resolver_call (engine s) (query s)) in
  (∀ e x1,
     resolver (engine s) (query s) (ext w) = (Raise e, x1) →
     frame ts w = (Raise e, mkWorld s x1 (trace w ++ [ev1 (Some e)])))
  ∧ (∀ sql params x1,
     resolver (engine s) (query s) (ext w) = (Ok (sql, params), x1) →
     let kw := dictcombine (read_sql s) {[ "params" := params ]} in
     let ev2 := mkEvent (loader_call (str sql) (engine s) kw) in
     (∀ e x2,
        loader (str sql) (engine s) kw x1 = (Raise e, x2) →
        frame ts w = (Raise e, mkWorld s x2 (trace w ++ [ev1 None; ev2 (Some e)])))
     ∧ (∀ df x2,
        loader (str sql) (engine s) kw x1 = (Ok df, x2) →
        (∀ key e,
           read_sql s !! "columns" = Some key → key ≠ PNone →
           getitem_pure df key = Raise e →
           frame ts w
           = (Raise e,
              mkWorld s x2 (trace w ++ [ev1 None; ev2 None;
                                        mkEvent (getitem_call df key) (Some e)])))
        ∧ (∀ df0 pre y post x e,
           mask (read_sql s) df = Ok df0 →
           ts = pre ++ y :: post → chain pre df0 = Ok x → y x = Raise e →
           (frame ts w).1 = Raise e
           ∧ trace (frame ts w).2
             = trace (frame [] w).2 ++ chain_events pre df0
                 ++ [mkEvent (transformation_call y x) (Some e)])))
  ∧ (∀ e, (frame ts w).1 = Raise e →
       ∃ pre ev, new_events w (frame ts w).2 = pre ++ [ev] ∧ outcome ev = Some e).
Proof.
  cbv zeta. split; [|split].
  - intros e x1 Hres. rewrite frame_unfold. cbv zeta. by rewrite Hres.
  - intros sql params x1 Hres. split.
    + intros e x2 Hload. rewrite frame_unfold. cbv zeta. by rewrite Hres, Hload.
    + intros df x2 Hload. split.
      * intros key e Hkey Hnone%is_not_None_true Hget.
        rewrite frame_unfold. cbv zeta.
        by rewrite Hres, Hload, Hkey, Hnone, Hget.
      * intros df0 pre y post x e Hmask -> Hpre Hy.
        destruct (frame_after_frame_nil (pre ++ y :: post) w) as (Hr & _ & Htr).
        destruct (frame_result [] w _ _ _ _ _ Hres Hload) as [Hnil _].
        rewrite Hmask in Hnil. cbn in Hnil.
        rewrite Hr, Hnil, (Htr _ Hnil). cbn [res_bind].
        rewrite chain_app, Hpre. cbn [res_bind]. rewrite chain_cons, Hy.
        split; [done|].
        rewrite (chain_events_app _ _ _ _ Hpre). cbn. by rewrite Hy.
  - intros e. rewrite frame_unfold. cbv zeta.
    assert (∀ x, chain ts x = Raise e →
      ∃ pre ev, chain_events ts x = pre ++ [ev] ∧ outcome ev = Some e) as Hchain.
    { induction ts as [|y ts' IH]; intros x; [done|].
      rewrite chain_cons. cbn. destruct (y x) as [x'|e'] eqn:Hy; cbn.
      - intros (pre & ev & -> & Hev)%IH.
        by exists (mkEvent (transformation_call y x) None :: pre), ev.
      - intros [= ->]. by exists [], (mkEvent (transformation_call y x) (Some e)). }
    destruct (resolver _ _ _) as [[[sql params]|e1] x1].
    2:{ intros [= ->]. erewrite new_events_app by reflexivity. by eexists [], _. }
    destruct (loader _ _ _ _) as [[df|e2] x2].
    2:{ intros [= ->]. erewrite new_events_app by reflexivity. by eexists [_], _. }
    destruct (read_sql (self w) !! "columns") as [key|];
      [destruct (is_not_None key); [destruct (getitem_pure df key) as [df'|e3]|]|];
      cbn; erewrite new_events_app by reflexivity.
    + intros (pre & ev & -> & Hev)%Hchain. by eexists (_ :: _ :: _ :: pre), ev.
    + intros [= ->]. by eexists [_; _], _.
    + intros (pre & ev & -> & Hev)%Hchain. by eexists (_ :: _ :: pre), ev.
    + intros (pre & ev & -> & Hev)%Hchain. by eexists (_ :: _ :: pre), ev.
Qed.

(** How often one call of [frame] reaches the resolver and the loader, and
    where a returned table comes from. *)
Lemma frame_counts ts w :
  let s := self w in
  let evs := new_events w (frame ts w).2 in
  count is_resolver_call evs = 1
  ∧ count is_loader_call evs ≤ 1
  ∧ (∀ sql params x1,
       resolver (engine s) (query s) (ext w) = (Ok (sql, params), x1) →
       count is_loader_call evs = 1)
  ∧ ∀ r, (frame ts w).1 = Ok r →
      ∃ sql params x1 df0,
        resolver (engine s) (query s) (ext w) = (Ok (sql, params), x1)
        ∧ loader (str sql) (engine s)
            (dictcombine (read_sql s) {[ "params" := params ]}) x1
          = (Ok df0, ext (frame ts w).2)
        ∧ res_bind (mask (read_sql s) df0) (chain ts) = Ok r.
Proof.
  cbv zeta. unfold mask, count.
  frame_cases; (erewrite new_events_app by reflexivity); cbn;
    rewrite ?filter_chain_events_resolver, ?filter_chain_events_loader; cbn;
    (split; [done|]); (split; [lia|]); (split; [done|]); intros r Hr;
    try done; exists sql, params, x1, df; (split; [done|]); (split; [done|]);
    rewrite ?Hkey; cbn; by rewrite ?Hnone, ?Hget.
Qed.

(** C8.  One call of [frame] calls the resolver once and, once the
    statement is resolved, the loader once (never more); a table it returns
    is computed from what the loader returned during this very call.  Two
    calls in a row therefore resolve twice and, when both return, load twice,
    the second table being computed from the second load. *)
Theorem frame_no_caching ts w :
  let s := self w in
  let evs := new_events w (frame ts w).2 in
  count is_resolver_call evs = 1
  ∧ count is_loader_call evs ≤ 1
  ∧ (∀ sql params x1,
       resolver (engine s) (query s) (ext w) = (Ok (sql, params), x1) →
       count is_loader_call evs = 1)
  ∧ (∀ r, (frame ts w).1 = Ok r →
       ∃ sql params x1 df0,
         resolver (engine s) (query s) (ext w) = (Ok (sql, params), x1)
         ∧ loader (str sql) (engine s)
             (dictcombine (read_sql s) {[ "params" := params ]}) x1
           = (Ok df0, ext (frame ts w).2)
         ∧ res_bind (mask (read_sql s) df0) (chain ts) = Ok r)
  ∧ (∀ ts',
       let w1 := (frame ts w).2 in
       let evs2 := new_events w (frame ts' w1).2 in
       count is_resolver_call evs2 = 2
       ∧ ∀ r1 r2, (frame ts w).1 = Ok r1 → (frame ts' w1).1 = Ok r2 →
           count is_loader_call evs2 = 2
           ∧ ∃ sql params x1 df0,
               resolver (engine s) (query s) (ext w1) = (Ok (sql, params), x1)
               ∧ loader (str sql) (engine s)
                   (dictcombine (read_sql s) {[ "params" := params ]}) x1
                 = (Ok df0, ext (frame ts' w1).2)
               ∧ res_bind (mask (read_sql s) df0) (chain ts') = Ok r2).
Proof.
  cbv zeta. destruct (frame_counts ts w) as (Hres & Hle & Hload & Hok).
  do 4 (split; [done|]). intros ts'.
  destruct (frame_counts ts' (frame ts w).2) as (Hres' & _ & Hload' & Hok').
  assert (new_events w (frame ts' (frame ts w).2).2
          = new_events w (frame ts w).2
              ++ new_events (frame ts w).2 (frame ts' (frame ts w).2).2) as ->.
  { apply new_events_app.
    by rewrite (frame_trace ts' (frame ts w).2), (frame_trace ts w) at 1;
      rewrite <- app_assoc. }
  rewrite !count_app, Hres, Hres'. split; [done|]. intros r1 r2 Hr1 Hr2.
  destruct (Hok _ Hr1) as (sql & params & x1 & _ & Hsql & _).
  destruct (Hok' _ Hr2) as (sql' & params' & x1' & df0 & Hsql' & Hfrom).
  rewrite (Hload _ _ _ Hsql), (Hload' _ _ _ Hsql'). split; [done|].
  rewrite frame_self in Hsql', Hfrom. by exists sql', params', x1', df0.
Qed.

Lemma dictcombine_delete_columns stored params :
  dictcombine (delete "columns" stored) {[ "params" := params ]}
  = delete "columns" (dictcombine stored {[ "params" := params ]}).
Proof.
  apply map_eq. intros k. rewrite dictcombine_lookup, !lookup_delete.
  case_decide as Hk; [|by rewrite dictcombine_lookup].
  subst k. by rewrite lookup_singleton_ne.
Qed.

Lemma dictcombine_insert_columns stored params v :
  stored !! "columns" = Some v →
  dictcombine stored {[ "params" := params ]}
  = <["columns" := v]> (dictcombine stored {[ "params" := params ]}).
Proof.
  intros Hv. symmetry. apply insert_id. by rewrite dictcombine_other.
Qed.

(** C9.  Once a table is loaded, the column selection is skipped exactly when
    the stored options have no ['columns'] entry or hold [None] there, and
    the loaded table then enters the transformation chain with all its
    columns; for any other stored value the table is indexed once, with that
    stored value.  An adapter built with [columns=None] returns what the
    adapter built without the option returns, for a loader that treats an
    explicit [columns=None] as the omitted keyword. *)
Theorem frame_columns_none ts w sql params x1 df x2 :
  let s := self w in
  resolver (engine s) (query s) (ext w) = (Ok (sql, params), x1) →
  loader (str sql) (engine s)
    (dictcombine (read_sql s) {[ "params" := params ]}) x1 = (Ok df, x2) →
  let evs := new_events w (frame ts w).2 in
  (count is_getitem_call evs = 0
     ↔ read_sql s !! "columns" = None ∨ read_sql s !! "columns" = Some PNone)
  ∧ (count is_getitem_call evs = 0 → (frame ts w).1 = chain ts df)
  ∧ (∀ key, read_sql s !! "columns" = Some key → key ≠ PNone →
       List.filter is_getitem_call evs
       = [mkEvent (getitem_call df key) (raised (getitem_pure df key))]
       ∧ (frame ts w).1 = res_bind (getitem_pure df key) (chain ts))
  ∧ (∀ w',
       read_sql s !! "columns" = Some PNone →
       self w' = mkRedPanda (ormcls s) (engine s) (query s)
                   (delete "columns" (read_sql s)) →
       ext w' = ext w →
       (∀ sql' con kw x,
          loader sql' con (<["columns" := PNone]> kw) x
          = loader sql' con (delete "columns" kw) x) →
       (frame ts w').1 = (frame ts w).1
       ∧ ext (frame ts w').2 = ext (frame ts w).2).
Proof.
  cbv zeta. intros Hres Hload.
  assert (∀ key, read_sql (self w) !! "columns" = Some key → key ≠ PNone →
       List.filter is_getitem_call (new_events w (frame ts w).2)
       = [mkEvent (getitem_call df key) (raised (getitem_pure df key))]
       ∧ (frame ts w).1 = res_bind (getitem_pure df key) (chain ts)) as Hsel.
  { intros key Hkey Hnone%is_not_None_true.
    rewrite frame_unfold. cbv zeta. rewrite Hres, Hload, Hkey, Hnone.
    destruct (getitem_pure df key) as [df'|e];
      (erewrite new_events_app by reflexivity); cbn;
      by rewrite ?filter_chain_events_getitem. }
  assert (read_sql (self w) !! "columns" = None
          ∨ read_sql (self w) !! "columns" = Some PNone →
       count is_getitem_call (new_events w (frame ts w).2) = 0
       ∧ (frame ts w).1 = chain ts df) as Hskip.
  { intros Hkey. rewrite frame_unfold. cbv zeta. rewrite Hres, Hload.
    destruct Hkey as [-> | ->]; cbn;
      (erewrite new_events_app by reflexivity); unfold count; cbn;
      by rewrite filter_chain_events_getitem. }
  assert (count is_getitem_call (new_events w (frame ts w).2) = 0
          → read_sql (self w) !! "columns" = None
            ∨ read_sql (self w) !! "columns" = Some PNone) as Hdecide.
  { intros Hzero. destruct (read_sql (self w) !! "columns") as [key|] eqn:Hkey;
      [|by left].
    destruct (is_not_None key) eqn:Hnone; [|right; by destruct key].
    apply is_not_None_true in Hnone.
    destruct (Hsel key eq_refl Hnone) as [Hone _].
    unfold count in Hzero. by rewrite Hone in Hzero. }
  split; [split; [exact Hdecide | apply Hskip]|].
  split; [intros Hzero; by apply Hskip, Hdecide|].
  split; [exact Hsel|].
  intros w' Hnone Hself Hext Hdefault.
  destruct (Hskip (or_intror Hnone)) as [_ ->].
  assert (loader (str sql) (engine (self w))
            (dictcombine (delete "columns" (read_sql (self w)))
               {[ "params" := params ]}) x1 = (Ok df, x2)) as Hload'.
  { rewrite dictcombine_delete_columns, <- Hdefault,
      <- (dictcombine_insert_columns _ _ _ Hnone). exact Hload. }
  rewrite frame_unfold. cbv zeta. rewrite Hself, Hext. cbn.
  rewrite Hres, Hload', lookup_delete_eq. cbn. split; [done|].
  symmetry. by apply (frame_result ts w _ _ _ _ _ Hres Hload).
Qed.

(** *** Label-based selection *)

Lemma as_labels_strings cs : as_labels (PList (PStr <$> cs)) = Some cs.
Proof.
  cbn. induction cs as [|c cs IH]; [done|].
  cbn. cbn in IH. by rewrite IH.
Qed.

Lemma occurrences_elem_of c df : occurrences c df ≠ 0 → c ∈ columns df.
Proof.
  unfold occurrences, columns. intros Hocc.
  destruct (filter (λ col, col.1 = c) (data df)) as [|col cols] eqn:Hf; [done|].
  assert (col ∈ filter (λ col, col.1 = c) (data df)) as Hin by (rewrite Hf; left).
  apply list_elem_of_filter in Hin as [<- Hin]. by apply list_elem_of_fmap_2.
Qed.

Lemma getitem_labels_missing df key :
  (∃ c, c ∈ key ∧ c ∉ columns df) →
  getitem_labels df key = Raise (KeyError (filter (λ c, c ∉ columns df) key)).
Proof.
  intros (c & Hc & Hmiss). unfold getitem_labels.
  destruct (filter (λ c, c ∉ columns df) key) as [|m ms] eqn:Hf; [|done].
  by destruct (filter_nil_not_elem_of _ _ c Hf Hmiss).
Qed.

Lemma getitem_labels_present df key :
  (∀ c, c ∈ key → occurrences c df = 1) →
  ∃ df', getitem_labels df key = Ok df'
    ∧ columns df' = key
    ∧ index df' = index df
    ∧ ∀ j c, key !! j = Some c →
        ∃ vals, data df' !! j = Some (c, vals) ∧ (c, vals) ∈ data df.
Proof.
  intros Honce. unfold getitem_labels.
  destruct (filter (λ c, c ∉ columns df) key) as [|m ms] eqn:Hf.
  2:{ assert (m ∈ filter (λ c, c ∉ columns df) key) as Hm by (rewrite Hf; left).
      apply list_elem_of_filter in Hm as [Hmiss Hm].
      destruct Hmiss. apply occurrences_elem_of. by rewrite (Honce _ Hm). }
  eexists. split; [done|]. unfold columns. cbn. clear Hf.
  induction key as [|c key IH]; [done|].
  rewrite bind_cons.
  assert (∃ vals, filter (λ col, col.1 = c) (data df) = [(c, vals)]
                  ∧ (c, vals) ∈ data df) as (vals & Hsel & Hin).
  { specialize (Honce c (list_elem_of_here _ _)). unfold occurrences in Honce.
    destruct (filter (λ col, col.1 = c) (data df)) as [|[c' vals] [|??]] eqn:Hf;
      try done.
    assert ((c', vals) ∈ filter (λ col, col.1 = c) (data df)) as Hin
      by (rewrite Hf; left).
    apply list_elem_of_filter in Hin as [Hc' Hin]. cbn in Hc'. subst c'.
    by exists vals. }
  rewrite Hsel. cbn.
  destruct IH as (Hcols & _ & Hdata).
  { intros c' Hc'. apply Honce. by right. }
  split; [by rewrite Hcols|]. split; [done|].
  intros [|j] c'; cbn.
  - intros [= <-]. by exists vals.
  - apply Hdata.
Qed.

(** C2 (amended): each requested label occurring once.  With the stored
    ['columns'] option a list of column labels, each carried by exactly one
    column of the loaded table, the table that enters the transformation
    chain (and that [frame()] returns) has exactly the requested labels in
    the requested order, the index of the loaded table, and under each label
    the very column the loaded table has there.  If a requested label is
    carried by no column, the [KeyError] of the selection is what [frame]
    raises, and no transformation is called. *)
Theorem frame_projects_columns ts w sql params x1 df x2 cs :
  let s := self w in
  let kw := dictcombine (read_sql s) {[ "params" := params ]} in
  resolver (engine s) (query s) (ext w) = (Ok (sql, params), x1) →
  loader (str sql) (engine s) kw x1 = (Ok df, x2) →
  read_sql s !! "columns" = Some (PList (PStr <$> cs)) →
  ((∀ c, c ∈ cs → occurrences c df = 1) →
     ∃ df', (frame [] w).1 = Ok df'
       ∧ (frame ts w).1 = chain ts df'
       ∧ columns df' = cs
       ∧ index df' = index df
       ∧ ∀ j c, cs !! j = Some c →
           ∃ vals, data df' !! j = Some (c, vals) ∧ (c, vals) ∈ data df)
  ∧ ((∃ c, c ∈ cs ∧ c ∉ columns df) →
     ∃ e, e = KeyError (filter (λ c, c ∉ columns df) cs)
       ∧ frame ts w
         = (Raise e,
            mkWorld s x2
              (trace w ++ [mkEvent (resolver_call (engine s) (query s)) None;
                           mkEvent (loader_call (str sql) (engine s) kw) None;
                           mkEvent (getitem_call df (PList (PStr <$> cs)))
                             (Some e)]))).
Proof.
  cbv zeta. intros Hres Hload Hcols.
  assert (getitem_pure df (PList (PStr <$> cs)) = getitem_labels df cs) as Hget.
  { unfold getitem_pure. by rewrite as_labels_strings. }
  split.
  - intros (df' & Hdf' & Hprops)%getitem_labels_present.
    exists df'. split; [|split; [|exact Hprops]].
    + destruct (frame_result [] w _ _ _ _ _ Hres Hload) as [-> _].
      unfold mask. rewrite Hcols. cbn. by rewrite Hget, Hdf'.
    + destruct (frame_result ts w _ _ _ _ _ Hres Hload) as [-> _].
      unfold mask. rewrite Hcols. cbn. by rewrite Hget, Hdf'.
  - intros Hmiss%getitem_labels_missing. eexists. split; [done|].
    rewrite frame_unfold. cbv zeta. rewrite Hres, Hload, Hcols. cbn.
    by rewrite Hget, Hmiss.
Qed.

(** ** Properties of [parse] *)

Lemma resume_unfold it w :
  resume it w =
  match it with
  | [] => (StopIteration, GenFinished, w)
  | (ix, row) :: it' =>
      let w' := mkWorld (self w) (ext w)
                  (trace w ++ [construct_event (ormcls (self w)) row]) in
      match ormcls (self w) (to_dict row) with
      | Ok obj => (Yield obj, GenSuspended it', w')
      | Raise e => (Raised e, GenFinished, w')
      end
  end.
Proof.
  destruct it as [|[ix row] it']; [done|].
  unfold resume, mbind, M_bind, getattr, construct, extern, construct_event. cbn.
  by destruct (ormcls (self w) (to_dict row)).
Qed.

Lemma consume_finished n w : consume (S n) GenFinished w = ([], Exhausted, GenFinished, w).
Proof. done. Qed.

(** Calling [next] on a fresh generator starts the loop over [iterrows]. *)
Lemma consume_parse n df w :
  consume (S n) (parse df) w = consume (S n) (GenSuspended (iterrows df)) w.
Proof. done. Qed.

(** Consuming the rows on which the constructor succeeds. *)
Lemma consume_prefix pre rest objs w :
  Forall2 (λ r obj, ormcls (self w) (to_dict r.2) = Ok obj) pre objs →
  consume (length pre) (GenSuspended (pre ++ rest)) w
  = (objs, Received, GenSuspended rest,
     mkWorld (self w) (ext w)
       (trace w ++ ((λ r, mkEvent (ormcls_call (to_dict r.2)) None) <$> pre))).
Proof.
  revert objs w. induction pre as [|[ix row] pre IH]; intros objs w Hpre.
  - apply Forall2_nil_inv_l in Hpre as ->. cbn. by rewrite app_nil_r, world_eta.
  - apply Forall2_cons_inv_l in Hpre as (obj & objs' & Hobj & Hpre & ->).
    cbn [length consume next app]. rewrite resume_unfold. cbv zeta.
    unfold construct_event. cbn [snd] in Hobj. rewrite Hobj.
    rewrite (IH objs'); [|exact Hpre]. cbn. by rewrite <- app_assoc.
Qed.

(** The consumer that meets a failing row. *)
Lemma consume_failing n row rest e w ix :
  ormcls (self w) (to_dict row) = Raise e →
  consume (S n) (GenSuspended ((ix, row) :: rest)) w
  = ([], Failed e, GenFinished,
     mkWorld (self w) (ext w) (trace w ++ [mkEvent (ormcls_call (to_dict row)) (Some e)])).
Proof.
  intros Hrow. cbn [consume next]. rewrite resume_unfold. cbv zeta.
  unfold construct_event. by rewrite Hrow.
Qed.

(** Two consumers in a row. *)
Lemma consume_add n m g w :
  consume (n + m) g w =
  match consume n g w with
  | (objs, Received, g', w') =>
      let '(objs', stop, g'', w'') := consume m g' w' in (objs ++ objs', stop, g'', w'')
  | other => other
  end.
Proof.
  revert g w. induction n as [|n IH]; intros g w.
  - cbn. by destruct (consume m g w) as [[[??]?]?].
  - cbn [Nat.add consume]. destruct (next g w) as [[[obj| |e] g'] w']; [|done..].
    rewrite IH. destruct (consume n g' w') as [[[objs stop] g''] w''].
    destruct stop; [|done..]. by destruct (consume m g'' w'') as [[[??]?]?].
Qed.

(** *** Rows as keyword arguments *)

Lemma to_dict_snoc row kv : to_dict (row ++ [kv]) = <[kv.1 := kv.2]> (to_dict row).
Proof. unfold to_dict. by rewrite foldl_app. Qed.

Lemma dom_to_dict row : dom (to_dict row) = list_to_set row.*1.
Proof.
  induction row as [|kv row IH] using rev_ind; [apply dom_empty_L|].
  rewrite to_dict_snoc, dom_insert_L, IH, fmap_app, list_to_set_app_L. cbn.
  rewrite union_empty_r_L. apply union_comm_L.
Qed.

Lemma to_dict_lookup row c v :
  NoDup row.*1 → (c, v) ∈ row → to_dict row !! c = Some v.
Proof.
  induction row as [|[c' v'] row IH] using rev_ind; [by intros _ ?%elem_of_nil|].
  rewrite fmap_app, to_dict_snoc. cbn.
  intros (Hnodup & Hfresh & _)%NoDup_app [Hin|Hin%list_elem_of_singleton]%elem_of_app.
  - rewrite lookup_insert_ne; [by apply IH|].
    intros <-. apply (Hfresh c'); [|left].
    by apply (list_elem_of_fmap_2 fst) in Hin.
  - injection Hin as -> ->. apply lookup_insert_eq.
Qed.

Lemma row_at_labels d i : Forall (λ col, i < length col.2) d → (row_at d i).*1 = d.*1.
Proof.
  induction 1 as [|[c vals] d Hlen _ IH]; [done|].
  cbn in *. destruct (lookup_lt_is_Some_2 vals i Hlen) as [v ->]. cbn.
  by f_equal.
Qed.

Lemma row_at_elem_of d i c vals v :
  (c, vals) ∈ d → vals !! i = Some v → (c, v) ∈ row_at d i.
Proof.
  intros Hin Hv. unfold row_at. apply list_elem_of_omap.
  exists (c, vals). cbn. by rewrite Hv.
Qed.

(** In a well-formed table, row [i] passes one keyword per column label. *)
Lemma row_kwargs_dom df i :
  well_formed df → i < length (index df) →
  dom (to_dict (row_at (data df) i)) = list_to_set (columns df).
Proof.
  intros Hwf Hi. rewrite dom_to_dict, row_at_labels; [done|].
  eapply Forall_impl; [exact Hwf|]. cbn. intros col ->. exact Hi.
Qed.

(** With distinct labels, the keyword [c] carries the cell of column [c]. *)
Lemma row_kwargs_lookup df i c vals :
  well_formed df → NoDup (columns df) → i < length (index df) →
  (c, vals) ∈ data df →
  to_dict (row_at (data df) i) !! c = vals !! i.
Proof.
  intros Hwf Hnodup Hi Hin.
  assert (Forall (λ col, i < length col.2) (data df)) as Hlen.
  { eapply Forall_impl; [exact Hwf|]. cbn. intros col ->. exact Hi. }
  destruct (lookup_lt_is_Some_2 vals i) as [v Hv].
  { by apply (proj1 (Forall_forall _ _) Hlen (c, vals)). }
  rewrite Hv. apply to_dict_lookup.
  - by rewrite row_at_labels.
  - by eapply row_at_elem_of.
Qed.

(** *** [iterrows] *)

Lemma length_iterrows df : length (iterrows df) = length (index df).
Proof. apply length_imap. Qed.

Lemma iterrows_lookup df i r :
  iterrows df !! i = Some r → i < length (index df) ∧ r.2 = row_at (data df) i.
Proof.
  unfold iterrows. rewrite list_lookup_imap.
  destruct (index df !! i) as [ix|] eqn:Hix; [|done].
  intros [= <-]. split; [by eapply lookup_lt_Some|done].
Qed.

Lemma imap_ignoring {A B} (h : nat → B) (l1 l2 : list A) :
  length l1 = length l2 → imap (λ i _, h i) l1 = imap (λ i _, h i) l2.
Proof.
  revert h l2. induction l1 as [|a l1 IH]; intros h [|b l2] Hlen; try done.
  rewrite !imap_cons. f_equal. apply (IH (h ∘ S)). by injection Hlen.
Qed.

Lemma iterrows_rows df1 df2 :
  data df1 = data df2 → length (index df1) = length (index df2) →
  (iterrows df1).*2 = (iterrows df2).*2.
Proof.
  intros Hdata Hlen. unfold iterrows. rewrite !fmap_imap, Hdata.
  by apply (imap_ignoring (row_at (data df2))).
Qed.

Lemma Forall_exists_Forall2 {A B} (P : A → B → Prop) l :
  Forall (λ a, ∃ b, P a b) l → ∃ k, Forall2 P l k.
Proof.
  induction 1 as [|a l [b Hb] _ [k Hk]]; [by exists []|].
  exists (b :: k). by constructor.
Qed.

(** C4.  For a well-formed table whose column labels are keywords the
    stored constructor accepts, a consumer that drains [parse(table)]
    receives one object per row and then the end of the sequence: object
    number [i] is what the constructor returns for the keywords of row [i],
    which are the column labels, each with the cell of that row, and the
    constructor is called on the rows in row order.  On a table without rows
    the consumer receives nothing. *)
Theorem parse_one_object_per_row df w :
  (well_formed df →
   (∀ kw, dom kw = list_to_set (columns df) → ∃ obj, ormcls (self w) kw = Ok obj) →
   ∃ objs w',
     (∀ n, length (index df) ≤ n →
        consume (S n) (parse df) w = (objs, Exhausted, GenFinished, w'))
     ∧ length objs = length (index df)
     ∧ (∀ i obj, objs !! i = Some obj →
          ormcls (self w) (to_dict (row_at (data df) i)) = Ok obj)
     ∧ (∀ i, i < length (index df) →
          dom (to_dict (row_at (data df) i)) = list_to_set (columns df)
          ∧ (NoDup (columns df) → ∀ c vals, (c, vals) ∈ data df →
               to_dict (row_at (data df) i) !! c = vals !! i))
     ∧ new_events w w'
       = (λ r, mkEvent (ormcls_call (to_dict r.2)) None) <$> iterrows df)
  ∧ (index df = [] → ∀ n, consume (S n) (parse df) w = ([], Exhausted, GenFinished, w)).
Proof.
  split; [|intros Hidx n; rewrite consume_parse; unfold iterrows; by rewrite Hidx].
  intros Hwf Hctor.
  destruct (Forall_exists_Forall2
    (λ r obj, ormcls (self w) (to_dict r.2) = Ok obj) (iterrows df))
    as [objs Hobjs].
  { apply Forall_lookup. intros i r [Hi ->]%iterrows_lookup.
    apply Hctor. by apply row_kwargs_dom. }
  exists objs. eexists. split; [|split; [|split; [|split]]].
  - intros n Hn. rewrite consume_parse.
    replace (S n) with (length (iterrows df) + S (n - length (index df)))
      by (rewrite length_iterrows; lia).
    pose proof (consume_prefix _ [] _ _ Hobjs) as Htake.
    rewrite app_nil_r in Htake. rewrite consume_add, Htake.
    cbn [consume next resume]. by rewrite app_nil_r.
  - by rewrite <- (Forall2_length _ _ _ Hobjs), length_iterrows.
  - intros i obj Hobj.
    destruct (Forall2_lookup_r _ _ _ _ _ Hobjs Hobj) as (r & Hr & Hcls).
    apply iterrows_lookup in Hr as [_ Hr]. by rewrite <- Hr.
  - intros i Hi. split; [by apply row_kwargs_dom|].
    intros Hnodup c vals Hin. by apply row_kwargs_lookup.
  - by apply new_events_app.
Qed.

(** A suspended generator whose rows fail at position [length pre]. *)
Lemma suspended_failure pre ix row post objs e w :
  Forall2 (λ r obj, ormcls (self w) (to_dict r.2) = Ok obj) pre objs →
  ormcls (self w) (to_dict row) = Raise e →
  let g := GenSuspended (pre ++ (ix, row) :: post) in
  let w1 := mkWorld (self w) (ext w)
    (trace w ++ ((λ r, mkEvent (ormcls_call (to_dict r.2)) None) <$> pre)) in
  let w2 := mkWorld (self w) (ext w)
    (trace w1 ++ [mkEvent (ormcls_call (to_dict row)) (Some e)]) in
  consume (length pre) g w = (objs, Received, GenSuspended ((ix, row) :: post), w1)
  ∧ next (GenSuspended ((ix, row) :: post)) w1 = (Raised e, GenFinished, w2)
  ∧ ∀ n, length pre ≤ n → consume (S n) g w = (objs, Failed e, GenFinished, w2).
Proof.
  intros Hpre Hrow. cbv zeta.
  pose proof (consume_prefix pre ((ix, row) :: post) objs w Hpre) as Htake.
  split; [exact Htake|]. split.
  - cbn [next]. rewrite resume_unfold. cbv zeta. unfold construct_event. cbn.
    by rewrite Hrow.
  - intros n Hn. replace (S n) with (length pre + S (n - length pre)) by lia.
    rewrite consume_add, Htake.
    rewrite (consume_failing _ row post e (mkWorld (self w) (ext w) _) ix Hrow).
    by rewrite app_nil_r.
Qed.

(** C7.  When the constructor succeeds on the first [i] rows and raises [e]
    on row [i]: a consumer asking for [i] objects receives them, and by then
    the constructor has been called on those [i] rows only; the next request
    raises [e] itself and finishes the generator; every later request finds
    the sequence ended, so no object is made from a later row.  A consumer
    draining the generator thus ends with the [i] objects and the error. *)
Theorem parse_lazy_failure df w pre ix row post objs e :
  iterrows df = pre ++ (ix, row) :: post →
  Forall2 (λ r obj, ormcls (self w) (to_dict r.2) = Ok obj) pre objs →
  ormcls (self w) (to_dict row) = Raise e →
  ∃ g1 w1 w2,
    consume (length pre) (parse df) w = (objs, Received, g1, w1)
    ∧ new_events w w1 = (λ r, mkEvent (ormcls_call (to_dict r.2)) None) <$> pre
    ∧ next g1 w1 = (Raised e, GenFinished, w2)
    ∧ new_events w1 w2 = [mkEvent (ormcls_call (to_dict row)) (Some e)]
    ∧ (∀ n, consume (S n) GenFinished w2 = ([], Exhausted, GenFinished, w2))
    ∧ (∀ n, length pre ≤ n →
         consume (S n) (parse df) w = (objs, Failed e, GenFinished, w2)).
Proof.
  intros Hrows Hpre Hrow.
  destruct (suspended_failure pre ix row post objs e w Hpre Hrow)
    as (Htake & Hnext & Hdrain).
  assert (∀ n, length pre ≤ n →
    consume (S n) (parse df) w
    = (objs, Failed e, GenFinished,
       mkWorld (self w) (ext w)
         ((trace w ++ ((λ r, mkEvent (ormcls_call (to_dict r.2)) None) <$> pre))
            ++ [mkEvent (ormcls_call (to_dict row)) (Some e)]))) as Hall.
  { intros n Hn. rewrite consume_parse, Hrows. by apply Hdrain. }
  destruct pre as [|r pre'].
  - apply Forall2_nil_inv_l in Hpre as ->.
    cbn in Hnext, Hall. rewrite app_nil_r, world_eta in Hnext.
    rewrite app_nil_r in Hall.
    exists (parse df), w. eexists. split; [done|].
    split; [by apply new_events_app; rewrite app_nil_r|].
    split; [cbn [next parse]; rewrite Hrows; exact Hnext|].
    split; [by apply new_events_app|]. split; [done|]. exact Hall.
  - exists (GenSuspended ((ix, row) :: post)). eexists. eexists.
    split; [cbn [length]; rewrite consume_parse, Hrows; exact Htake|].
    split; [by apply new_events_app|].
    split; [exact Hnext|].
    split; [by apply new_events_app|]. split; [done|]. exact Hall.
Qed.

Lemma consume_same_rows n it1 it2 w :
  it1.*2 = it2.*2 →
  ∃ objs stop g1 g2 evs,
    consume n (GenSuspended it1) w
    = (objs, stop, g1, mkWorld (self w) (ext w) (trace w ++ evs))
    ∧ consume n (GenSuspended it2) w
      = (objs, stop, g2, mkWorld (self w) (ext w) (trace w ++ evs))
    ∧ Forall (λ ev, ∃ r, r ∈ it1 ∧ call ev = ormcls_call (to_dict r.2)) evs.
Proof.
  revert it1 it2 w. induction n as [|n IH]; intros it1 it2 w Hrows.
  { exists [], Received, (GenSuspended it1), (GenSuspended it2), [].
    cbn. by rewrite app_nil_r, world_eta. }
  destruct it1 as [|[ix1 row] it1], it2 as [|[ix2 row2] it2]; try done.
  { exists [], Exhausted, GenFinished, GenFinished, [].
    cbn. by rewrite app_nil_r, world_eta. }
  injection Hrows as <- Hrows. cbn [consume next]. rewrite !resume_unfold. cbv zeta.
  destruct (ormcls (self w) (to_dict row)) as [obj|e] eqn:Hobj.
  - destruct (IH it1 it2 (mkWorld (self w) (ext w)
      (trace w ++ [construct_event (ormcls (self w)) row])) Hrows)
      as (objs & stop & g1 & g2 & evs & -> & -> & Hevs).
    exists (obj :: objs), stop, g1, g2,
      (construct_event (ormcls (self w)) row :: evs).
    cbn. rewrite <- !app_assoc. do 2 (split; [done|]).
    constructor; [exists (ix1, row); split; [left|done]|].
    eapply Forall_impl; [exact Hevs|]. intros ev (r & Hr & Hev).
    exists r. split; [by right|done].
  - exists [], (Failed e), GenFinished, GenFinished,
      [construct_event (ormcls (self w)) row].
    do 2 (split; [done|]). constructor; [|done].
    exists (ix1, row). split; [left|done].
Qed.

(** C10.  Two tables with the same columns and as many rows, whatever their
    index labels, give a consumer of [parse] the same objects, the same
    ending, and the same constructor calls; each call passes the keywords of
    a row, which are made from the columns alone. *)
Theorem parse_ignores_index df1 df2 n w :
  data df1 = data df2 → length (index df1) = length (index df2) →
  ∃ objs stop g1 g2 w',
    consume n (parse df1) w = (objs, stop, g1, w')
    ∧ consume n (parse df2) w = (objs, stop, g2, w')
    ∧ ∀ ev, ev ∈ new_events w w' →
        ∃ i, i < length (index df1)
             ∧ call ev = ormcls_call (to_dict (row_at (data df1) i)).
Proof.
  intros Hdata Hlen. destruct n as [|n].
  { exists [], Received, (parse df1), (parse df2), w. do 2 (split; [done|]).
    unfold new_events. rewrite drop_all. by intros ev ?%elem_of_nil. }
  destruct (consume_same_rows (S n) (iterrows df1) (iterrows df2) w)
    as (objs & stop & g1 & g2 & evs & Htake1 & Htake2 & Hevs);
    [by apply iterrows_rows|].
  exists objs, stop, g1, g2. eexists. rewrite !consume_parse.
  split; [exact Htake1|]. split; [exact Htake2|].
  erewrite new_events_app by reflexivity. intros ev Hev.
  destruct (proj1 (Forall_forall _ _) Hevs ev Hev) as (r & Hr & ->).
  apply list_elem_of_lookup in Hr as [i Hr].
  apply iterrows_lookup in Hr as [Hi ->]. by exists i.
Qed.

End Properties.

(** ** The properties at work in the concrete setting *)

(** The merge example of the specification. *)
Example merge_precedence :
  dictcombine stored_example {[ "params" := PDict [("p", PInt 2)] ]} !! "params"
    = Some (PDict [("p", PInt 2)])
  ∧ dictcombine stored_example {[ "params" := PDict [("p", PInt 2)] ]} !! "index_col"
    = Some (PStr "id").
Proof. split; reflexivity. Qed.

Lemma frame_loader_options_witness :
  let w := demo_world "SELECT a" stored_example in
  ∃ kw r,
    List.filter is_loader_call (new_events w (frame [] w).2)
      = [mkEvent (loader_call "SELECT a" "sqlite://" kw) r]
    ∧ kw = dictcombine stored_example {[ "params" := PDict [("p", PInt 2)] ]}
    ∧ kw !! "params" = Some (PDict [("p", PInt 2)])
    ∧ ∀ k, k ≠ "params" → kw !! k = stored_example !! k.
Proof.
  exact (frame_loader_options [] (demo_world "SELECT a" stored_example)
           "SELECT a" (PDict [("p", PInt 2)]) 0 eq_refl).
Defined.

(** A table loaded with two columns labelled [id]: selecting [["id"]]
    returns both, so the returned table does not have exactly the requested
    columns although every requested label is present. *)
Lemma frame_projection_duplicate_labels :
  let w := demo_world "SELECT u.id, v.id, name" {[ "columns" := PList [PStr "id"] ]} in
  ∃ df df',
    loader "SELECT u.id, v.id, name" "sqlite://"
      (dictcombine (read_sql (self w)) {[ "params" := PDict [("p", PInt 2)] ]}) 0
    = (Ok df, 1)
    ∧ columns df = ["id"; "id"; "name"]
    ∧ (frame [] w).1 = Ok df'
    ∧ columns df' = ["id"; "id"]
    ∧ columns df' ≠ ["id"].
Proof.
  cbv zeta. eexists. eexists.
  split; [reflexivity|]. split; [reflexivity|]. split; [reflexivity|].
  split; [reflexivity|]. discriminate.
Qed.

Lemma frame_projects_columns_witness :
  (let w := demo_world "SELECT a" {[ "columns" := PList [PStr "c"; PStr "a"] ]} in
   ∃ df', (frame [] w).1 = Ok df'
     ∧ (frame [head1] w).1 = chain [head1] df'
     ∧ columns df' = ["c"; "a"]
     ∧ index df' = [PInt 0; PInt 1]
     ∧ data df' !! 1 = Some ("a", [PInt 1; PInt 2]))
  ∧ (let w := demo_world "SELECT a" {[ "columns" := PList [PStr "a"; PStr "z"] ]} in
     (frame [head1] w).1 = Raise (KeyError ["z"])).
Proof.
  split; cbv zeta.
  - pose proof (frame_projects_columns [head1]
        (demo_world "SELECT a" {[ "columns" := PList [PStr "c"; PStr "a"] ]})
        "SELECT a" (PDict [("p", PInt 2)]) 0
        (mkDataFrame [PInt 0; PInt 1]
           [("a", [PInt 1; PInt 2]); ("b", [PInt 0; PInt 0]);
            ("c", [PDict [("p", PInt 2)]; PDict [("p", PInt 2)]])])
        1 ["c"; "a"]) as Hthm.
    cbv zeta in Hthm. destruct Hthm as [Hpresent _]; [reflexivity..|].
    destruct Hpresent as (df' & Hnil & Hts & Hcols & Hidx & Hdata).
    + intros c Hc. apply elem_of_cons in Hc as [->|Hc]; [reflexivity|].
      apply elem_of_cons in Hc as [->|Hc]; [reflexivity|].
      by apply elem_of_nil in Hc.
    + exists df'. do 4 (split; [assumption|]).
      destruct (Hdata 1 "a" eq_refl) as (vals & -> & Hin). f_equal. f_equal.
      repeat (apply elem_of_cons in Hin as [Hin|Hin]; [by simplify_eq|]).
      by apply elem_of_nil in Hin.
  - pose proof (frame_projects_columns [head1]
        (demo_world "SELECT a" {[ "columns" := PList [PStr "a"; PStr "z"] ]})
        "SELECT a" (PDict [("p", PInt 2)]) 0
        (mkDataFrame [PInt 0; PInt 1]
           [("a", [PInt 1; PInt 2]); ("b", [PInt 0; PInt 0]);
            ("c", [PDict [("p", PInt 2)]; PDict [("p", PInt 2)]])])
        1 ["a"; "z"]) as Hthm.
    cbv zeta in Hthm. destruct Hthm as [_ Hmissing]; [reflexivity..|].
    destruct Hmissing as (e & -> & ->).
    + exists "z". split; [right; left|]. cbn. intros Hin.
      repeat (apply elem_of_cons in Hin as [Hin|Hin]; [discriminate|]).
      by apply elem_of_nil in Hin.
    + reflexivity.
Defined.

Lemma frame_transformations_compose_witness :
  let w := demo_world "SELECT a" ∅ in
  (frame [head1; add_prefix "t_"] w).1
    = res_bind (res_bind (frame [] w).1 head1) (add_prefix "t_")
  ∧ (frame [head1; add_prefix "t_"] w).1
    = Ok (mkDataFrame [PInt 0]
            [("t_a", [PInt 1]); ("t_b", [PInt 0]); ("t_c", [PDict [("p", PInt 2)]])]).
Proof.
  cbv zeta.
  destruct (frame_transformations_compose head1 (add_prefix "t_")
              (demo_world "SELECT a" ∅)) as (Hpair & _ & _ & Htotal).
  split; [exact Hpair|]. rewrite Hpair. reflexivity.
Defined.

Lemma parse_one_object_per_row_witness :
  (let w := demo_world "SELECT a" ∅ in
   ∃ objs w',
     consume 3 (parse users) w = (objs, Exhausted, GenFinished, w')
     ∧ length objs = 2
     ∧ objs !! 0 = Some {[ "id" := PInt 1; "name" := PStr "x" ]}
     ∧ objs !! 1 = Some {[ "id" := PInt 2; "name" := PStr "y" ]})
  ∧ consume 1 (parse no_users) (demo_world "SELECT a" ∅)
    = ([], Exhausted, GenFinished, demo_world "SELECT a" ∅).
Proof.
  split; cbv zeta.
  - destruct (proj1 (parse_one_object_per_row users (demo_world "SELECT a" ∅)))
      as (objs & w' & Hall & Hlen & Hobj & _).
    + repeat constructor.
    + intros kw Hdom. exists kw. cbn. unfold User.
      rewrite decide_True; [done|]. rewrite Hdom. reflexivity.
    + exists objs, w'. split; [apply Hall; cbn; lia|]. split; [exact Hlen|].
      destruct objs as [|o0 [|o1 [|??]]]; try discriminate Hlen.
      pose proof (Hobj 0 o0 eq_refl) as H0. pose proof (Hobj 1 o1 eq_refl) as H1.
      vm_compute in H0. vm_compute in H1.
      split; cbn; f_equal; [injection H0 as <- | injection H1 as <-];
        reflexivity.
  - exact (proj2 (parse_one_object_per_row no_users (demo_world "SELECT a" ∅))
             eq_refl 0).
Defined.

Lemma adapter_never_mutated_witness :
  let w := demo_world "SELECT a" stored_example in
  let w' := (next (parse users) (frame [head1] (frame [] w).2).2).2 in
  self w' = self w
  ∧ ormcls (self w') = User
  ∧ engine (self w') = "sqlite://"
  ∧ query (self w') = "SELECT a"
  ∧ read_sql (self w') = stored_example.
Proof.
  cbv zeta.
  apply (adapter_never_mutated (demo_world "SELECT a" stored_example)).
  apply calls_next, calls_frame, calls_frame, calls_none.
Defined.

Lemma frame_error_transparent_witness :
  (frame [head1] (demo_world "" ∅)).1
    = Raise (Exception "ArgumentError" "empty query")
  ∧ (frame [head1] (demo_world "SELECT 1/0" ∅)).1
    = Raise (Exception "OperationalError" "division by zero")
  ∧ (frame [head1] (demo_world "SELECT a" {[ "columns" := PList [PStr "z"] ]})).1
    = Raise (KeyError ["z"])
  ∧ (frame [head1; failing; add_prefix "t_"] (demo_world "SELECT a" ∅)).1
    = Raise (Exception "ValueError" "unexpected frame")
  ∧ length (trace (frame [head1; failing; add_prefix "t_"]
                     (demo_world "SELECT a" ∅)).2) = 4.
Proof.
  split; [|split; [|split]].
  - pose proof (frame_error_transparent [head1] (demo_world "" ∅)) as Hthm.
    cbv zeta in Hthm. destruct Hthm as (Hresolver & _ & _).
    by rewrite (Hresolver (Exception "ArgumentError" "empty query") 0 eq_refl).
  - pose proof (frame_error_transparent [head1] (demo_world "SELECT 1/0" ∅))
      as Hthm.
    cbv zeta in Hthm. destruct Hthm as (_ & Hstages & _).
    destruct (Hstages "SELECT 1/0" (PDict [("p", PInt 2)]) 0 eq_refl)
      as [Hloader _].
    by rewrite (Hloader (Exception "OperationalError" "division by zero") 1 eq_refl).
  - pose proof (frame_error_transparent [head1]
      (demo_world "SELECT a" {[ "columns" := PList [PStr "z"] ]})) as Hthm.
    cbv zeta in Hthm. destruct Hthm as (_ & Hstages & _).
    destruct (Hstages "SELECT a" (PDict [("p", PInt 2)]) 0 eq_refl)
      as [_ Hloaded].
    edestruct Hloaded as [Hgetitem _]; [reflexivity|].
    erewrite (Hgetitem (PList [PStr "z"]) (KeyError ["z"])); done.
  - pose proof (frame_error_transparent [head1; failing; add_prefix "t_"]
      (demo_world "SELECT a" ∅)) as Hthm.
    cbv zeta in Hthm. destruct Hthm as (_ & Hstages & _).
    destruct (Hstages "SELECT a" (PDict [("p", PInt 2)]) 0 eq_refl)
      as [_ Hloaded].
    edestruct Hloaded as [_ Hchain]; [reflexivity|].
    edestruct Hchain with (pre := [head1]) (y := failing)
      (post := [add_prefix "t_"]) as [Hraise Htrace]; [reflexivity..|].
    split; [exact Hraise|]. rewrite Htrace. reflexivity.
Defined.

Lemma parse_lazy_failure_witness :
  let first := {[ "id" := PInt 1; "owner" := PStr "x" ]} in
  let e := Exception "ValueError" "id must be an integer" in
  ∃ g1 w1 w2,
    consume 1 (parse accounts) account_world = ([first], Received, g1, w1)
    ∧ new_events account_world w1 = [mkEvent (ormcls_call first) None]
    ∧ next g1 w1 = (Raised e, GenFinished, w2)
    ∧ new_events w1 w2
      = [mkEvent (ormcls_call (to_dict (row_at (data accounts) 1))) (Some e)]
    ∧ (∀ n, consume (S n) GenFinished w2 = ([], Exhausted, GenFinished, w2))
    ∧ (∀ n, 1 ≤ n →
         consume (S n) (parse accounts) account_world
         = ([first], Failed e, GenFinished, w2)).
Proof.
  cbv zeta.
  apply (parse_lazy_failure accounts account_world
    [(PInt 0, row_at (data accounts) 0)] (PInt 1) (row_at (data accounts) 1)
    [(PInt 2, row_at (data accounts) 2)]
    [{[ "id" := PInt 1; "owner" := PStr "x" ]}]
    (Exception "ValueError" "id must be an integer")).
  - reflexivity.
  - repeat constructor.
  - reflexivity.
Defined.

Lemma frame_no_caching_witness :
  let w := demo_world "SELECT a" ∅ in
  let w1 := (frame [] w).2 in
  count is_resolver_call (new_events w (frame [] w1).2) = 2
  ∧ count is_loader_call (new_events w (frame [] w1).2) = 2
  ∧ (frame [] w).1
    = Ok (mkDataFrame [PInt 0; PInt 1]
            [("a", [PInt 1; PInt 2]); ("b", [PInt 0; PInt 0]);
             ("c", [PDict [("p", PInt 2)]; PDict [("p", PInt 2)]])])
  ∧ (frame [] w1).1
    = Ok (mkDataFrame [PInt 0; PInt 1]
            [("a", [PInt 1; PInt 2]); ("b", [PInt 1; PInt 1]);
             ("c", [PDict [("p", PInt 2)]; PDict [("p", PInt 2)]])]).
Proof.
  cbv zeta.
  pose proof (frame_no_caching [] (demo_world "SELECT a" ∅)) as Hthm.
  cbv zeta in Hthm. destruct Hthm as (_ & _ & _ & _ & Htwice).
  destruct (Htwice []) as [Hresolved Hloaded].
  split; [exact Hresolved|].
  edestruct Hloaded as [Hcount _]; [reflexivity..|].
  split; [exact Hcount|]. split; reflexivity.
Defined.

Lemma frame_columns_none_witness :
  let w := demo_world "SELECT a" {[ "columns" := PNone ]} in
  let w' := demo_world "SELECT a" ∅ in
  count is_getitem_call (new_events w (frame [head1] w).2) = 0
  ∧ (frame [head1] w).1
    = chain [head1]
        (mkDataFrame [PInt 0; PInt 1]
           [("a", [PInt 1; PInt 2]); ("b", [PInt 0; PInt 0]);
            ("c", [PDict [("p", PInt 2)]; PDict [("p", PInt 2)]])])
  ∧ (frame [head1] w').1 = (frame [head1] w).1
  ∧ ext (frame [head1] w').2 = ext (frame [head1] w).2.
Proof.
  cbv zeta.
  pose proof (frame_columns_none [head1]
    (demo_world "SELECT a" {[ "columns" := PNone ]})
    "SELECT a" (PDict [("p", PInt 2)]) 0
    (mkDataFrame [PInt 0; PInt 1]
       [("a", [PInt 1; PInt 2]); ("b", [PInt 0; PInt 0]);
        ("c", [PDict [("p", PInt 2)]; PDict [("p", PInt 2)]])])
    1) as Hthm.
  cbv zeta in Hthm.
  destruct Hthm as (Hiff & Hfull & _ & Hsame); [reflexivity..|].
  assert (count is_getitem_call
            (new_events (demo_world "SELECT a" {[ "columns" := PNone ]})
               (frame [head1] (demo_world "SELECT a" {[ "columns" := PNone ]})).2)
          = 0) as Hskip by (apply Hiff; right; reflexivity).
  split; [exact Hskip|]. split; [exact (Hfull Hskip)|].
  apply (Hsame (demo_world "SELECT a" ∅)); [reflexivity..|].
  intros sql' con kw x. unfold loader, demo, demo_loader, dict_get.
  by rewrite lookup_insert_ne, lookup_delete_ne.
Defined.

Lemma parse_ignores_index_witness :
  ∃ objs stop g1 g2 w',
    consume 3 (parse users) (demo_world "SELECT a" ∅) = (objs, stop, g1, w')
    ∧ consume 3 (parse users_relabelled) (demo_world "SELECT a" ∅)
      = (objs, stop, g2, w')
    ∧ ∀ ev, ev ∈ new_events (demo_world "SELECT a" ∅) w' →
        ∃ i, i < 2 ∧ call ev = ormcls_call (to_dict (row_at (data users) i)).
Proof.
  apply (parse_ignores_index users users_relabelled 3 (demo_world "SELECT a" ∅));
    reflexivity.
Defined.

(** * Further properties of [__init__], [frame] and [parse] *)

Section Further.
Context `{Collaborators}.

Lemma chain_events_all_called ts x r :
  chain ts x = Ok r →
  Forall2 (λ ev y, ∃ x', ev = mkEvent (transformation_call y x') None)
    (chain_events ts x) ts.
Proof.
  revert x. induction ts as [|y ts IH]; intros x; [constructor|].
  rewrite chain_cons. cbn. destruct (y x) as [x'|e] eqn:Hy; cbn; [|done].
  intros Hr. constructor; [by exists x|]. by apply IH.
Qed.

(** The calls of a returning [frame], in order: the resolver on the engine
    and query given to the constructor, the loader on the rendered statement,
    the same engine and the merged options, the column selection if the
    stored options ask for one, then every transformation exactly once, in
    argument order; the constructor of mapped objects is not called. *)
Theorem frame_call_sequence o e q opts x0 tr ts sql params x1 df x2 df0 r :
  let w := mkWorld (init o e q opts) x0 tr in
  let kw := dictcombine opts {[ "params" := params ]} in
  resolver e q x0 = (Ok (sql, params), x1) →
  loader (str sql) e kw x1 = (Ok df, x2) →
  mask opts df = Ok df0 →
  chain ts df0 = Ok r →
  frame ts w
  = (Ok r,
     mkWorld (init o e q opts) x2
       (tr ++ mkEvent (resolver_call e q) None
           :: mkEvent (loader_call (str sql) e kw) None
           :: selection_events opts df ++ chain_events ts df0))
  ∧ Forall2 (λ ev y, ∃ x', ev = mkEvent (transformation_call y x') None)
      (chain_events ts df0) ts
  ∧ count is_ormcls_call (new_events w (frame ts w).2) = 0.
Proof.
  cbv zeta. intros Hres Hload Hmask Hchain.
  assert (frame ts (mkWorld (init o e q opts) x0 tr)
    = (Ok r,
       mkWorld (init o e q opts) x2
         (tr ++ mkEvent (resolver_call e q) None
             :: mkEvent (loader_call (str sql) e
                  (dictcombine opts {[ "params" := params ]})) None
             :: selection_events opts df ++ chain_events ts df0))) as Hrun.
  { rewrite frame_unfold. cbv zeta. cbn [self ext trace init engine query read_sql].
    rewrite Hres, Hload. unfold mask in Hmask. unfold selection_events.
    destruct (opts !! "columns") as [key|];
      [destruct (is_not_None key);
       [destruct (getitem_pure df key) as [df'|e']; [|done]|]|];
      injection Hmask as ->; by rewrite Hchain. }
  split; [exact Hrun|]. split; [by eapply chain_events_all_called|].
  rewrite Hrun. erewrite new_events_app by reflexivity.
  unfold count. cbn. rewrite List.filter_app.
  rewrite (filter_chain_events is_ormcls_call); [|done..].
  unfold selection_events.
  destruct (opts !! "columns") as [key|]; [destruct (is_not_None key)|]; done.
Qed.

(** *** The column selection beyond the one-column-per-label case *)

Lemma getitem_labels_all_present df key :
  (∀ c, c ∈ key → c ∈ columns df) →
  getitem_labels df key
  = Ok {| index := index df;
          data := key ≫= (λ c, filter (λ col, col.1 = c) (data df)) |}.
Proof.
  intros Hall. unfold getitem_labels.
  destruct (filter (λ c, c ∉ columns df) key) as [|m ms] eqn:Hf; [done|].
  assert (m ∈ filter (λ c, c ∉ columns df) key) as Hm by (rewrite Hf; left).
  apply list_elem_of_filter in Hm as [Hmiss Hm]. destruct Hmiss. by apply Hall.
Qed.

Lemma filter_label_labels (d : list (string * list pyval)) c :
  (filter (λ col, col.1 = c) d).*1 = replicate (length (filter (λ col, col.1 = c) d)) c.
Proof.
  induction d as [|[c' vals] d IH]; [done|].
  rewrite filter_cons. cbn. case_decide as Hc; [|exact IH].
  cbn. by rewrite IH, Hc.
Qed.

Lemma bind_fmap_labels (d : list (string * list pyval)) (key : list string) :
  (key ≫= (λ c, filter (λ col, col.1 = c) d)).*1
  = key ≫= (λ c, replicate (length (filter (λ col, col.1 = c) d)) c).
Proof.
  induction key as [|c key IH]; [done|].
  by rewrite !bind_cons, fmap_app, IH, filter_label_labels.
Qed.

(** With every requested label present, whatever the number of columns
    carrying it: the table entering the transformation chain keeps the index,
    carries each requested label as many times as the loaded table does, in
    request order, and consists of exactly the loaded columns whose label was
    requested. *)
Theorem frame_selection_with_repeats ts w sql params x1 df x2 cs :
  let s := self w in
  resolver (engine s) (query s) (ext w) = (Ok (sql, params), x1) →
  loader (str sql) (engine s)
    (dictcombine (read_sql s) {[ "params" := params ]}) x1 = (Ok df, x2) →
  read_sql s !! "columns" = Some (PList (PStr <$> cs)) →
  (∀ c, c ∈ cs → c ∈ columns df) →
  ∃ df', (frame [] w).1 = Ok df'
    ∧ (frame ts w).1 = chain ts df'
    ∧ index df' = index df
    ∧ columns df' = cs ≫= (λ c, replicate (occurrences c df) c)
    ∧ ∀ col, col ∈ data df' ↔ col ∈ data df ∧ col.1 ∈ cs.
Proof.
  cbv zeta. intros Hres Hload Hcols Hall.
  assert (mask (read_sql (self w)) df
          = Ok {| index := index df;
                  data := cs ≫= (λ c, filter (λ col, col.1 = c) (data df)) |})
    as Hmask.
  { unfold mask. rewrite Hcols. cbn. unfold getitem_pure.
    rewrite as_labels_strings. by apply getitem_labels_all_present. }
  eexists. split; [|split; [|split; [|split]]].
  - destruct (frame_result [] w _ _ _ _ _ Hres Hload) as [-> _].
    by rewrite Hmask.
  - destruct (frame_result ts w _ _ _ _ _ Hres Hload) as [-> _].
    by rewrite Hmask.
  - done.
  - unfold columns, occurrences. cbn. apply bind_fmap_labels.
  - intros col. cbn. rewrite list_elem_of_bind. split.
    + intros (c & [Hc Hin]%list_elem_of_filter & Hcs). split; [done|].
      by rewrite Hc.
    + intros [Hin Hcs]. exists col.1. split; [|done].
      by apply list_elem_of_filter.
Qed.

(** An empty list of columns is not "no columns option": the guard tests
    [is not None], so the table is indexed with the empty list and enters
    the transformation chain with its index and no column at all. *)
Theorem frame_empty_columns_list ts w sql params x1 df x2 :
  let s := self w in
  resolver (engine s) (query s) (ext w) = (Ok (sql, params), x1) →
  loader (str sql) (engine s)
    (dictcombine (read_sql s) {[ "params" := params ]}) x1 = (Ok df, x2) →
  read_sql s !! "columns" = Some (PList []) →
  (frame ts w).1 = chain ts (mkDataFrame (index df) [])
  ∧ List.filter is_getitem_call (new_events w (frame ts w).2)
    = [mkEvent (getitem_call df (PList [])) None].
Proof.
  cbv zeta. intros Hres Hload Hcols. split.
  - destruct (frame_result ts w _ _ _ _ _ Hres Hload) as [-> _].
    unfold mask. by rewrite Hcols.
  - rewrite frame_unfold. cbv zeta. rewrite Hres, Hload, Hcols. cbn.
    erewrite new_events_app by reflexivity. cbn.
    by rewrite filter_chain_events_getitem.
Qed.

Lemma select_all_labels (d : list (string * list pyval)) :
  NoDup d.*1 → d.*1 ≫= (λ c, filter (λ col, col.1 = c) d) = d.
Proof.
  induction d as [|[c vals] d IH]; [done|].
  cbn [fmap list_fmap fst]. intros [Hfresh Hnodup]%NoDup_cons.
  rewrite bind_cons, filter_cons_True by done.
  assert (filter (λ col : string * list pyval, col.1 = c) d = []) as ->.
  { destruct (filter (λ col : string * list pyval, col.1 = c) d)
      as [|col cols] eqn:Hf; [done|].
    assert (col ∈ filter (λ col : string * list pyval, col.1 = c) d) as Hin
      by (rewrite Hf; left).
    apply list_elem_of_filter in Hin as [<- Hin].
    destruct Hfresh. by apply list_elem_of_fmap_2. }
  cbn. f_equal.
  transitivity (d.*1 ≫= (λ c0, filter (λ col : string * list pyval, col.1 = c0) d));
    [|by apply IH].
  apply Forall_bind_ext, Forall_forall. intros c' Hc'.
  case_decide as Hc; [|done]. by subst c'.
Qed.

(** Asking for all the columns of the loaded table, in table order, changes
    nothing when the labels are distinct: the loaded table itself enters the
    transformation chain. *)
Theorem frame_all_columns_identity ts w sql params x1 df x2 :
  let s := self w in
  resolver (engine s) (query s) (ext w) = (Ok (sql, params), x1) →
  loader (str sql) (engine s)
    (dictcombine (read_sql s) {[ "params" := params ]}) x1 = (Ok df, x2) →
  read_sql s !! "columns" = Some (PList (PStr <$> columns df)) →
  NoDup (columns df) →
  (frame ts w).1 = chain ts df.
Proof.
  cbv zeta. intros Hres Hload Hcols Hnodup.
  destruct (frame_result ts w _ _ _ _ _ Hres Hload) as [-> _].
  unfold mask. rewrite Hcols. cbn. unfold getitem_pure.
  rewrite as_labels_strings, getitem_labels_all_present by done.
  unfold columns. rewrite select_all_labels by done. cbn. by destruct df.
Qed.

(** *** Generators of [parse] *)

Lemma consume_events n g w :
  ∃ objs stop g' evs,
    consume n g w = (objs, stop, g', mkWorld (self w) (ext w) (trace w ++ evs))
    ∧ Forall (λ ev, is_ormcls_call ev = true) evs
    ∧ length evs = constructor_calls objs stop
    ∧ length objs ≤ n
    ∧ (stop = Received ↔ length objs = n).
Proof.
  revert g w. induction n as [|n IH]; intros g w.
  { exists [], Received, g, []. cbn. by rewrite app_nil_r, world_eta. }
  assert (∀ it, ∃ objs stop g' evs,
    consume (S n) (GenSuspended it) w
    = (objs, stop, g', mkWorld (self w) (ext w) (trace w ++ evs))
    ∧ Forall (λ ev, is_ormcls_call ev = true) evs
    ∧ length evs = constructor_calls objs stop
    ∧ length objs ≤ S n
    ∧ (stop = Received ↔ length objs = S n)) as Hsusp.
  { intros [|[ix row] it].
    { exists [], Exhausted, GenFinished, []. cbn.
      rewrite app_nil_r, world_eta. repeat split; try done; lia. }
    cbn [consume next]. rewrite resume_unfold. cbv zeta.
    destruct (ormcls (self w) (to_dict row)) as [obj|e] eqn:Hobj.
    - destruct (IH (GenSuspended it) (mkWorld (self w) (ext w)
        (trace w ++ [construct_event (ormcls (self w)) row])))
        as (objs & stop & g' & evs & -> & Hevs & Hlen & Hle & Hrec).
      exists (obj :: objs), stop, g', (construct_event (ormcls (self w)) row :: evs).
      cbn. rewrite <- app_assoc. split; [done|]. split; [by constructor|].
      split; [unfold constructor_calls in *; cbn; lia|]. split; [lia|].
      rewrite Hrec. lia.
    - exists [], (Failed e), GenFinished, [construct_event (ormcls (self w)) row].
      cbn. split; [done|]. split; [by constructor|]. repeat split; try done; lia. }
  destruct g as [df|it|]; [apply Hsusp..|].
  exists [], Exhausted, GenFinished, []. cbn.
  rewrite app_nil_r, world_eta. repeat split; try done; lia.
Qed.

(** [parse] runs no query: whatever generator is advanced and however often,
    the adapter and the outside state stay as they were, every call made is
    a call of the stored constructor, and their number is the number of
    objects received, plus one if the consumer was stopped by an error.  A
    consumer never receives more objects than it asked for, and receives
    fewer exactly when the generator ended. *)
Theorem parse_calls_only_constructor n g w :
  ∃ objs stop g' w',
    consume n g w = (objs, stop, g', w')
    ∧ self w' = self w
    ∧ ext w' = ext w
    ∧ trace w' = trace w ++ new_events w w'
    ∧ Forall (λ ev, is_ormcls_call ev = true) (new_events w w')
    ∧ length (new_events w w') = constructor_calls objs stop
    ∧ length objs ≤ n
    ∧ (stop = Received ↔ length objs = n).
Proof.
  destruct (consume_events n g w)
    as (objs & stop & g' & evs & Hrun & Hevs & Hlen & Hle & Hrec).
  exists objs, stop, g'. eexists. split; [exact Hrun|].
  erewrite new_events_app by reflexivity. by cbn.
Qed.

(** A generator that has ended stays ended: once a consumer was stopped by
    the end of the rows or by an error, the generator is finished, and every
    later request finds the sequence ended without calling anything. *)
Theorem generator_stays_finished n g w objs stop g' w' :
  consume n g w = (objs, stop, g', w') →
  stop ≠ Received →
  g' = GenFinished
  ∧ next g' w' = (StopIteration, GenFinished, w')
  ∧ ∀ m, consume (S m) g' w' = ([], Exhausted, GenFinished, w').
Proof.
  intros Hrun Hstop. cut (g' = GenFinished); [by intros ->|].
  revert g w objs stop g' w' Hrun Hstop.
  induction n as [|n IH]; intros g w objs stop g' w'; cbn [consume].
  { by intros [= <- <- <- <-]. }
  assert (∀ it, next (GenSuspended it) w = resume it w) as Hnext by done.
  destruct (next g w) as [[[obj| |e] g1] w1] eqn:Hstep.
  - destruct (consume n g1 w1) as [[[objs1 stop1] g2] w2] eqn:Hrest.
    intros [= <- <- <- <-] Hstop. by eapply IH.
  - intros [= <- <- <- <-] _. revert Hstep.
    destruct g as [df|it|]; cbn [next]; rewrite ?resume_unfold;
      [destruct (iterrows df) as [|[ix row] it]|destruct it as [|[ix row] it]|];
      cbv zeta; try by intros [= <- <-].
    all: by destruct (ormcls (self w) (to_dict row)).
  - intros [= <- <- <- <-] _. revert Hstep.
    destruct g as [df|it|]; cbn [next]; rewrite ?resume_unfold;
      [destruct (iterrows df) as [|[ix row] it]|destruct it as [|[ix row] it]|];
      cbv zeta; try done.
    all: destruct (ormcls (self w) (to_dict row)); by intros [= <- <-].
Qed.


Lemma consume_rows_bound n it w :
  length (consume n (GenSuspended it) w).1.1.1 ≤ length it
  ∧ (length it < n → (consume n (GenSuspended it) w).1.1.2 ≠ Received).
Proof.
  revert it w. induction n as [|n IH]; intros it w; [cbn; split; lia|].
  cbn [consume next]. rewrite resume_unfold.
  destruct it as [|[ix row] it]; [done|]. cbv zeta.
  destruct (ormcls (self w) (to_dict row)) as [obj|e]; [|cbn; split; [lia|done]].
  destruct (IH it (mkWorld (self w) (ext w)
    (trace w ++ [construct_event (ormcls (self w)) row]))) as [Hle Hend].
  destruct (consume n (GenSuspended it) _) as [[[objs stop] g'] w'].
  cbn in *. split; [lia|]. intros Hn. apply Hend. lia.
Qed.

(** The sequence of [parse] is finite: whatever the constructor does, a
    consumer receives at most one object per row of the table, and one that
    asks for more than there are rows is stopped, by the end of the rows or
    by an error. *)
Theorem parse_at_most_one_object_per_row n df w :
  length (consume n (parse df) w).1.1.1 ≤ length (index df)
  ∧ (length (index df) < n → (consume n (parse df) w).1.1.2 ≠ Received).
Proof.
  destruct n as [|n]; [cbn; split; lia|].
  rewrite consume_parse, <- length_iterrows. apply consume_rows_bound.
Qed.

(** *** [frame] and [parse] together *)

(** [frame] reads the adapter and the outside state, not the trace. *)
Lemma frame_reads ts w1 w2 :
  self w1 = self w2 → ext w1 = ext w2 →
  ∃ r s x evs,
    frame ts w1 = (r, mkWorld s x (trace w1 ++ evs))
    ∧ frame ts w2 = (r, mkWorld s x (trace w2 ++ evs)).
Proof.
  intros Hself Hext. rewrite !frame_unfold. cbv zeta. rewrite Hself, Hext.
  destruct (resolver _ _ _) as [[[sql params]|e] x1]; [|by eexists _, _, _, _].
  destruct (loader _ _ _ _) as [[df|e] x2]; [|by eexists _, _, _, _].
  destruct (read_sql (self w2) !! "columns") as [key|];
    [destruct (is_not_None key); [destruct (getitem_pure df key)|]|];
    by eexists _, _, _, _.
Qed.

(** Iterating over parsed objects does not disturb the adapter: a [frame]
    call made after any number of generator steps returns the table, makes
    the calls and leaves the outside state that it would have without
    them. *)
Theorem frame_unaffected_by_iteration ts n g w :
  let w' := (consume n g w).2 in
  (frame ts w').1 = (frame ts w).1
  ∧ ext (frame ts w').2 = ext (frame ts w).2
  ∧ new_events w' (frame ts w').2 = new_events w (frame ts w).2.
Proof.
  cbv zeta.
  destruct (consume_events n g w) as (objs & stop & g' & evs & -> & _).
  cbn [snd].
  destruct (frame_reads ts (mkWorld (self w) (ext w) (trace w ++ evs)) w)
    as (r & s & x & evs' & -> & ->); [done..|].
  cbn [fst snd ext]. do 2 (split; [done|]).
  rewrite (new_events_app w _ evs') by done.
  by rewrite (new_events_app _ _ evs') by done.
Qed.

Lemma consume_all_rows it objs w n :
  Forall2 (λ r obj, ormcls (self w) (to_dict r.2) = Ok obj) it objs →
  length it ≤ n →
  consume (S n) (GenSuspended it) w
  = (objs, Exhausted, GenFinished,
     mkWorld (self w) (ext w)
       (trace w ++ ((λ r, mkEvent (ormcls_call (to_dict r.2)) None) <$> it))).
Proof.
  intros Hobjs Hn.
  replace (S n) with (length it + S (n - length it)) by lia.
  pose proof (consume_prefix _ [] _ _ Hobjs) as Hrun.
  rewrite app_nil_r in Hrun. rewrite consume_add, Hrun.
  cbn [consume next resume]. by rewrite app_nil_r.
Qed.

(** [parse(frame())]: when [frame] returns a well-formed table whose labels
    the stored constructor accepts, draining [parse] of that table gives one
    object per loaded row; in all, the resolver and the loader have been
    called once each and the constructor once per row, the outside state is
    as [frame] left it, and the adapter is unchanged. *)
Theorem parse_after_frame ts w df w1 :
  frame ts w = (Ok df, w1) →
  well_formed df →
  (∀ kw, dom kw = list_to_set (columns df) → ∃ obj, ormcls (self w) kw = Ok obj) →
  ∃ objs w2,
    consume (S (length (index df))) (parse df) w1 = (objs, Exhausted, GenFinished, w2)
    ∧ length objs = length (index df)
    ∧ self w2 = self w
    ∧ ext w2 = ext w1
    ∧ count is_resolver_call (new_events w w2) = 1
    ∧ count is_loader_call (new_events w w2) = 1
    ∧ count is_ormcls_call (new_events w w2) = length (index df).
Proof.
  intros Hframe Hwf Hctor.
  assert (self w1 = self w) as Hself by (by rewrite <- (frame_self ts w), Hframe).
  destruct (Forall_exists_Forall2
    (λ r obj, ormcls (self w1) (to_dict r.2) = Ok obj) (iterrows df))
    as [objs Hobjs].
  { apply Forall_lookup. intros i r [Hi ->]%iterrows_lookup. rewrite Hself.
    apply Hctor. by apply row_kwargs_dom. }
  exists objs. eexists. split.
  { rewrite consume_parse. apply consume_all_rows; [done|].
    by rewrite length_iterrows. }
  split; [by rewrite <- (Forall2_length _ _ _ Hobjs), length_iterrows|].
  split; [done|]. split; [done|].
  pose proof (frame_trace ts w) as Htrace.
  destruct (frame_counts ts w) as (Hres & _ & _ & Hok).
  destruct (Hok df) as (sql & params & x1 & df0 & Hsql & _); [by rewrite Hframe|].
  destruct (frame_counts ts w) as (_ & _ & Hload & _).
  specialize (Hload _ _ _ Hsql). rewrite Hframe in Htrace, Hres, Hload.
  cbn [snd] in Htrace, Hres, Hload.
  assert (count is_ormcls_call (new_events w w1) = 0) as Hnone.
  { clear -Hframe. revert Hframe. rewrite frame_unfold. cbv zeta.
    destruct (resolver _ _ _) as [[[sql params]|e] x1]; [|done].
    destruct (loader _ _ _ _) as [[df0|e] x2]; [|done].
    destruct (read_sql (self w) !! "columns") as [key|];
      [destruct (is_not_None key); [destruct (getitem_pure df0 key); [|done]|]|];
      intros [= _ <-]; (erewrite new_events_app by reflexivity);
      unfold count; cbn; rewrite ?List.filter_app;
      by rewrite (filter_chain_events is_ormcls_call). }
  erewrite (new_events_app w) by (cbn; rewrite Htrace, <- app_assoc; reflexivity).
  rewrite !count_app, Hres, Hload, Hnone.
  assert (∀ p (it : list (pyval * Series)),
    (∀ kw, p (mkEvent (ormcls_call kw) None) = false) →
    count p ((λ r, mkEvent (ormcls_call (to_dict r.2)) None) <$> it) = 0) as Hcount.
  { intros p it Hp. unfold count. induction it as [|r it IH]; [done|].
    cbn. by rewrite Hp. }
  rewrite !Hcount by done. do 2 (split; [done|]).
  rewrite <- length_iterrows. unfold count. clear.
  induction (iterrows df) as [|r it IH]; [done|]. cbn. by rewrite <- IH.
Qed.

(** *** Rows with repeated labels *)

Lemma to_dict_last row1 c v row2 :
  c ∉ row2.*1 → to_dict (row1 ++ (c, v) :: row2) !! c = Some v.
Proof.
  induction row2 as [|[c' v'] row2 IH] using rev_ind; intros Hfresh.
  - rewrite to_dict_snoc. apply lookup_insert_eq.
  - rewrite fmap_app in Hfresh. cbn in Hfresh.
    rewrite app_comm_cons, app_assoc, to_dict_snoc. cbn.
    rewrite lookup_insert_ne.
    + apply IH. intros Hin. apply Hfresh.
      apply elem_of_app. by left.
    + intros ->. apply Hfresh. apply elem_of_app. right. left.
Qed.

Lemma to_dict_absent row c : c ∉ row.*1 → to_dict row !! c = None.
Proof.
  intros Hfresh. apply not_elem_of_dom. rewrite dom_to_dict.
  by rewrite elem_of_list_to_set.
Qed.

Lemma row_at_labels_subset d i c : c ∈ (row_at d i).*1 → c ∈ d.*1.
Proof.
  intros ((c' & v) & -> & Hin)%list_elem_of_fmap.
  apply list_elem_of_omap in Hin as ((c'' & vals) & Hin & Hv).
  cbn in Hv. destruct (vals !! i); [|done]. injection Hv as -> _.
  by apply (list_elem_of_fmap_2 fst) in Hin.
Qed.

(** The keywords of a row: a label carried by several columns is passed
    once, with the cell of the last column carrying it; a label no column
    carries is not passed.  These are the keywords of the constructor call
    that [next] makes for the row. *)
Theorem row_keywords_last_column_wins df d1 c vals d2 i ix row it v w :
  data df = d1 ++ (c, vals) :: d2 →
  c ∉ d2.*1 →
  iterrows df !! i = Some (ix, row) →
  vals !! i = Some v →
  to_dict row !! c = Some v
  ∧ (∀ c', c' ∉ columns df → to_dict row !! c' = None)
  ∧ new_events w (next (GenSuspended ((ix, row) :: it)) w).2
    = [mkEvent (ormcls_call (to_dict row)) (raised (ormcls (self w) (to_dict row)))].
Proof.
  intros Hdata Hfresh [_ Hrow]%iterrows_lookup Hv. cbn in Hrow. subst row.
  split; [|split].
  - rewrite Hdata. unfold row_at. rewrite omap_app. cbn. rewrite Hv. cbn.
    apply to_dict_last. intros Hin. by apply Hfresh, (row_at_labels_subset d2 i).
  - intros c' Hc'. apply to_dict_absent. intros Hin.
    by apply Hc', (row_at_labels_subset (data df) i).
  - cbn [next]. rewrite resume_unfold. cbv zeta.
    destruct (ormcls (self w) (to_dict (row_at (data df) i))) eqn:Hobj;
      (erewrite new_events_app by reflexivity);
      unfold construct_event; by rewrite Hobj.
Qed.

End Further.

(** ** The further properties in the concrete setting *)

Lemma frame_call_sequence_witness :
  let w := demo_world "SELECT a" {[ "columns" := PList [PStr "a"] ]} in
  (frame [head1; add_prefix "t_"] w).1
    = Ok (mkDataFrame [PInt 0] [("t_a", [PInt 1])])
  ∧ length (new_events w (frame [head1; add_prefix "t_"] w).2) = 5
  ∧ count is_ormcls_call (new_events w (frame [head1; add_prefix "t_"] w).2) = 0.
Proof.
  cbv zeta.
  pose proof (frame_call_sequence User "sqlite://" "SELECT a"
    {[ "columns" := PList [PStr "a"] ]} 0 [] [head1; add_prefix "t_"]
    "SELECT a" (PDict [("p", PInt 2)]) 0
    (mkDataFrame [PInt 0; PInt 1]
       [("a", [PInt 1; PInt 2]); ("b", [PInt 0; PInt 0]);
        ("c", [PDict [("p", PInt 2)]; PDict [("p", PInt 2)]])])
    1 (mkDataFrame [PInt 0; PInt 1] [("a", [PInt 1; PInt 2])])
    (mkDataFrame [PInt 0] [("t_a", [PInt 1])])) as Hthm.
  cbv zeta in Hthm. destruct Hthm as (Hrun & _ & Hnone); [reflexivity..|].
  split; [|split; [|exact Hnone]].
  - unfold demo_world. by rewrite Hrun.
  - unfold demo_world. rewrite Hrun. reflexivity.
Defined.

Lemma frame_selection_with_repeats_witness :
  let w := demo_world "SELECT u.id, v.id, name"
             {[ "columns" := PList [PStr "name"; PStr "id"] ]} in
  ∃ df', (frame [] w).1 = Ok df'
    ∧ index df' = [PInt 0]
    ∧ columns df' = ["name"; "id"; "id"].
Proof.
  cbv zeta.
  pose proof (frame_selection_with_repeats []
    (demo_world "SELECT u.id, v.id, name"
       {[ "columns" := PList [PStr "name"; PStr "id"] ]})
    "SELECT u.id, v.id, name" (PDict [("p", PInt 2)]) 0
    (mkDataFrame [PInt 0]
       [("id", [PInt 1]); ("id", [PInt 7]); ("name", [PStr "x"])])
    1 ["name"; "id"]) as Hthm.
  cbv zeta in Hthm.
  destruct Hthm as (df' & Hnil & _ & Hidx & Hcols & _); [reflexivity..| |].
  - intros c Hc. apply elem_of_cons in Hc as [->|Hc]; [right; right; left|].
    apply elem_of_cons in Hc as [->|Hc]; [left|]. by apply elem_of_nil in Hc.
  - exists df'. split; [exact Hnil|]. split; [exact Hidx|]. exact Hcols.
Defined.

Lemma frame_empty_columns_list_witness :
  let w := demo_world "SELECT a" {[ "columns" := PList [] ]} in
  (frame [] w).1 = Ok (mkDataFrame [PInt 0; PInt 1] []).
Proof.
  cbv zeta.
  pose proof (frame_empty_columns_list []
    (demo_world "SELECT a" {[ "columns" := PList [] ]})
    "SELECT a" (PDict [("p", PInt 2)]) 0
    (mkDataFrame [PInt 0; PInt 1]
       [("a", [PInt 1; PInt 2]); ("b", [PInt 0; PInt 0]);
        ("c", [PDict [("p", PInt 2)]; PDict [("p", PInt 2)]])])
    1) as Hthm.
  cbv zeta in Hthm. destruct Hthm as [Hrun _]; [reflexivity..|]. exact Hrun.
Defined.

Lemma frame_all_columns_identity_witness :
  let w := demo_world "SELECT a"
             {[ "columns" := PList [PStr "a"; PStr "b"; PStr "c"] ]} in
  (frame [] w).1
  = Ok (mkDataFrame [PInt 0; PInt 1]
          [("a", [PInt 1; PInt 2]); ("b", [PInt 0; PInt 0]);
           ("c", [PDict [("p", PInt 2)]; PDict [("p", PInt 2)]])]).
Proof.
  cbv zeta.
  apply (frame_all_columns_identity []
    (demo_world "SELECT a" {[ "columns" := PList [PStr "a"; PStr "b"; PStr "c"] ]})
    "SELECT a" (PDict [("p", PInt 2)]) 0
    (mkDataFrame [PInt 0; PInt 1]
       [("a", [PInt 1; PInt 2]); ("b", [PInt 0; PInt 0]);
        ("c", [PDict [("p", PInt 2)]; PDict [("p", PInt 2)]])])
    1); [reflexivity..|].
  apply (NoDup_cons_2 "a"); [|apply (NoDup_cons_2 "b");
    [|apply (NoDup_cons_2 "c"); [|apply NoDup_nil_2]]];
    intros Hin; repeat (apply elem_of_cons in Hin as [Hin|Hin]; [discriminate|]);
    by apply elem_of_nil in Hin.
Defined.

Lemma generator_stays_finished_witness :
  ∃ w', consume 5 (parse users) (demo_world "SELECT a" ∅)
        = ([{[ "id" := PInt 1; "name" := PStr "x" ]};
            {[ "id" := PInt 2; "name" := PStr "y" ]}],
           Exhausted, GenFinished, w')
    ∧ ∀ m, consume (S m) GenFinished w' = ([], Exhausted, GenFinished, w').
Proof.
  eexists. split; [reflexivity|].
  eapply (generator_stays_finished 5 (parse users) (demo_world "SELECT a" ∅));
    [reflexivity|discriminate].
Defined.


Lemma parse_after_frame_witness :
  let df := mkDataFrame [PInt 0]
              [("a", [PInt 1]); ("b", [PInt 0]); ("c", [PDict [("p", PInt 2)]])] in
  let w1 := (frame [head1] anything_world).2 in
  ∃ objs w2,
    frame [head1] anything_world = (Ok df, w1)
    ∧ consume 2 (parse df) w1 = (objs, Exhausted, GenFinished, w2)
    ∧ length objs = 1
    ∧ count is_loader_call (new_events anything_world w2) = 1
    ∧ count is_ormcls_call (new_events anything_world w2) = 1.
Proof.
  cbv zeta.
  destruct (parse_after_frame [head1] anything_world
    (mkDataFrame [PInt 0]
       [("a", [PInt 1]); ("b", [PInt 0]); ("c", [PDict [("p", PInt 2)]])])
    (frame [head1] anything_world).2)
    as (objs & w2 & Hrun & Hlen & _ & _ & _ & Hload & Hctor).
  - reflexivity.
  - repeat constructor.
  - intros kw _. by exists kw.
  - exists objs, w2. split; [reflexivity|]. by repeat split.
Defined.

Lemma row_keywords_last_column_wins_witness :
  to_dict (row_at (data joined) 1) !! "id" = Some (PInt 8)
  ∧ to_dict (row_at (data joined) 1) !! "name" = Some (PStr "y")
  ∧ to_dict (row_at (data joined) 1) !! "owner" = None.
Proof.
  destruct (row_keywords_last_column_wins joined
    [("id", [PInt 1; PInt 2]); ("name", [PStr "x"; PStr "y"])]
    "id" [PInt 7; PInt 8] [] 1 (PInt 1) (row_at (data joined) 1) []
    (PInt 8) anything_world eq_refl) as (Hid & Habsent & _);
    [by intros ?%elem_of_nil|reflexivity..|].
  split; [exact Hid|]. split; [reflexivity|].
  apply Habsent. cbn. intros Hin.
  repeat (apply elem_of_cons in Hin as [Hin|Hin]; [discriminate|]).
  by apply elem_of_nil in Hin.
Defined.
